(** * Playlist <-> Liked Songs synchronisation: a shallow embedding

    The program under study is [spotify_playlist_to_liked.py]: a terminal
    tool that walks the tracks of a Spotify playlist and adds them to (or
    removes them from) the user's Liked Songs, or exports Liked Songs to a
    new playlist.  Every remote call goes through [rate_limited_request].

    The remote service, the keyboard and the clock are the environment.
    The embedding keeps the control flow of the Python functions and makes
    the environment explicit:
    - the Spotify client [sp] is an oracle [respond] over an abstract world;
    - the answers typed at the prompts are a list of pending input lines;
    - every remote call, [time.sleep], console line and progress update is
      appended to a log of events, so that properties of a run can be read
      off the log;
    - Python exceptions are a result [Exc], caught by [try_except];
    - the two [while results:] pagination loops take fuel, since the remote
      service decides how many pages there are. *)

From Stdlib Require Import ZArith QArith List String Ascii Lia Bool.
From stdpp Require Import base gmap strings list.

Local Open Scope Z_scope.

(** ** Configuration constants (source lines 37-48) *)

Definition SAFE_THRESHOLD : nat := 1000.
Definition SLOW_THRESHOLD_DELAY : Q := 1.2%Q.
Definition MIN_DELAY_BASE : Q := 0.35%Q.
Definition MAX_RETRIES : Z := 5.
Definition WARNING_VERY_LARGE : nat := 3000.

Definition SPEED_MODES : gmap string Q :=
  <["fast" := 0.35%Q]> (<["balanced" := 0.6%Q]> (<["accurate" := 1.5%Q]> ∅)).

(** The literal dictionary of line 289, from the menu digit to the key of
    [SPEED_MODES]. *)
Definition SPEED_KEYS : gmap string string :=
  <["1" := "fast"]> (<["2" := "balanced"]> (<["3" := "accurate"]> ∅)).

(** ** Data exchanged with the remote service *)

(** A track object as the Web API returns it inside a page item; every
    field the code reads with [.get] may be absent. *)
Record TrackObject := {
  raw_uri : option string;
  raw_name : option string;
  raw_artists : list string
}.

Record Item := { item_track : option TrackObject }.

Record Page := { items : list Item; next : option string }.

(** The dictionary [{"uri": .., "name": .., "artist": ..}] built at line 214. *)
Record Track := { uri : string; name : string; artist : string }.

Record PlaylistData := {
  pd_name : option string;
  pd_owner_display_name : option string;
  pd_tracks_total : option Z
}.

(** [playlist_info]; the empty dictionary is [None]. *)
Record PlaylistInfo := {
  info_name : string;
  info_owner : string;
  info_total_tracks : Z
}.

Record UserObject := { user_id : string }.

Record PlaylistObject := { playlist_id : string; playlist_url : string }.

(** The methods of the client [sp] that the program calls, with their
    arguments. *)
Inductive Request :=
| sp_playlist (id : string)
| sp_playlist_items (id : string)
| sp_next (result : Page)
| sp_current_user_saved_tracks (limit : Z)
| sp_current_user_saved_tracks_contains (tracks : list string)
| sp_current_user_saved_tracks_add (tracks : list string)
| sp_current_user_saved_tracks_delete (tracks : list string)
| sp_current_user
| sp_user_playlist_create (user name : string) (public : bool) (description : string)
| sp_playlist_add_items (id : string) (batch : list string).

Definition Reply (r : Request) : Type :=
  match r with
  | sp_playlist _ => PlaylistData
  | sp_playlist_items _ | sp_next _ | sp_current_user_saved_tracks _ => Page
  | sp_current_user_saved_tracks_contains _ => list bool
  | sp_current_user_saved_tracks_add _
  | sp_current_user_saved_tracks_delete _
  | sp_playlist_add_items _ _ => unit
  | sp_current_user => UserObject
  | sp_user_playlist_create _ _ _ _ => PlaylistObject
  end.

(** Python exceptions.  [SpotifyException] carries [http_status] and the
    integer value of the [Retry-After] header, [None] when [e.headers] is
    missing, empty or has no such entry. *)
Inductive exn :=
| SpotifyException (http_status : Z) (retry_after : option Z)
| TypeError
| IndexError
| KeyError
| EOFError
| OtherException (what : string).

(** The replies, untyped, as they are recorded in the log. *)
Inductive Value :=
| VPlaylistData (d : PlaylistData)
| VPage (p : Page)
| VBools (l : list bool)
| VUnit
| VUser (u : UserObject)
| VPlaylist (p : PlaylistObject).

Definition to_value (r : Request) : Reply r -> Value :=
  match r return Reply r -> Value with
  | sp_playlist _ => VPlaylistData
  | sp_playlist_items _ | sp_next _ | sp_current_user_saved_tracks _ => VPage
  | sp_current_user_saved_tracks_contains _ => VBools
  | sp_current_user_saved_tracks_add _
  | sp_current_user_saved_tracks_delete _
  | sp_playlist_add_items _ _ => fun _ => VUnit
  | sp_current_user => VUser
  | sp_user_playlist_create _ _ _ _ => VPlaylist
  end.

Inductive Outcome := Raised (e : exn) | Returned (v : Value).

(** Console lines.  Each constructor stands for one [console.print] (or one
    run of consecutive ones) of the source, with the values it formats. *)
Inductive Msg :=
| RateLimitHit (retry_after : Z)              (* line 167 *)
| ApiError (e : exn)                          (* line 172 *)
| MaxRetriesReached                           (* line 175 *)
| FailedToLoadPlaylist (e : exn)              (* line 223 *)
| PlaylistPreview (info : option PlaylistInfo) (tracks : list Track)
| NoTracksToProcess                           (* line 265 *)
| SafetyProtection (total : nat)              (* lines 270-275 *)
| ChooseSpeedMode                             (* lines 278-282 *)
| ReturningToDashboard                        (* line 286 *)
| Summary (mode : string) (total : nat) (delay : Q)  (* lines 292-298 *)
| Cancelled                                   (* lines 302, 399 *)
| Starting (mode : string)                    (* line 305 *)
| SkippedAlreadyLiked (display : string)      (* line 329 *)
| Added (display : string)                    (* line 333 *)
| Removed (display : string)                  (* line 339 *)
| SkippedNotLiked (display : string)          (* line 342 *)
| ErrorOn (display : string) (e : exn)        (* line 353 *)
| Completed                                   (* line 358 *)
| ProcessedCount (processed : nat)            (* line 359 *)
| SkippedCount (skipped : nat)                (* line 360 *)
| CreateHeader                                (* line 368 *)
| FetchingLiked                               (* line 378 *)
| FoundLiked (n : nat)                        (* line 396 *)
| AddingTracks                                (* line 411 *)
| Success (name : string)                     (* line 426 *)
| Link (url : string)                         (* line 427 *)
| ErrorCreatingPlaylist (e : exn)             (* line 430 *)
| LoadingPlaylist                             (* line 518 *)
| NoTracksLoaded                              (* line 522 *)
| FoundTracks (n : nat)                       (* line 526 *)
| BackToDashboard                             (* line 534 *)
| Dashboard.                                  (* show_dashboard *)

(** What a run does to the outside.  [ESleep base jitter] is
    [time.sleep(base + random.uniform(0, jitter))]; [EAdvance n] is
    [progress.update(task, advance=n)]; [EEta i] is the description update
    of line 348, taken when [i > 5]. *)
Inductive Event :=
| ECall (r : Request) (out : Outcome)
| ESleep (base jitter : Q)
| EPrint (m : Msg)
| EAdvance (n : nat)
| EEta (i : nat).

(** ** Python values *)

(** Truthiness of an optional string: [None] and [""] are false. *)
Definition truthy (o : option string) : bool :=
  match o with
  | Some s => negb (String.eqb s "")
  | None => false
  end.

(** [limit or 50] and [if limit and ...]: [None] and [0] are false. *)
Definition truthy_int (o : option Z) : bool :=
  match o with
  | Some n => negb (n =? 0)
  | None => false
  end.

Definition lower_ascii (c : ascii) : ascii :=
  let n := nat_of_ascii c in
  if ((65 <=? n) && (n <=? 90))%nat then ascii_of_nat (n + 32) else c.

(** [str.lower()] on ASCII text. *)
Fixpoint lower (s : string) : string :=
  match s with
  | EmptyString => EmptyString
  | String c rest => String (lower_ascii c) (lower rest)
  end.

Definition is_digit (c : ascii) : bool :=
  let n := nat_of_ascii c in ((48 <=? n) && (n <=? 57))%nat.

Definition digit_value (c : ascii) : Z := Z.of_nat (nat_of_ascii c) - 48.

(** The ASCII characters that Python counts as whitespace: space, tab to
    carriage return, and the four separators 0x1c to 0x1f. *)
Definition is_space (c : ascii) : bool :=
  let n := nat_of_ascii c in
  ((n =? 32) || ((9 <=? n) && (n <=? 13)) || ((28 <=? n) && (n <=? 31)))%nat.

Fixpoint lstrip (s : string) : string :=
  match s with
  | String c rest => if is_space c then lstrip rest else s
  | EmptyString => EmptyString
  end.

Fixpoint rstrip (s : string) : string :=
  match s with
  | String c rest =>
      match rstrip rest with
      | EmptyString => if is_space c then EmptyString else String c EmptyString
      | t => String c t
      end
  | EmptyString => EmptyString
  end.

(** The digits of an integer literal: at least one digit, single
    underscores allowed between digits. *)
Fixpoint int_digits (s : string) (acc : Z) (after_digit : bool) : option Z :=
  match s with
  | EmptyString => if after_digit then Some acc else None
  | String c rest =>
      if is_digit c then int_digits rest (10 * acc + digit_value c) true
      else if Ascii.eqb c "_"%char && after_digit then int_digits rest acc false
      else None
  end.

(** [int(s)] for a string of ASCII characters: surrounding whitespace, an
    optional sign, then decimal digits.  [None] is [ValueError].  (Outside
    ASCII Python accepts more: other decimal digits, other blanks.) *)
Definition py_int (s : string) : option Z :=
  match lstrip (rstrip s) with
  | String "+"%char rest => int_digits rest 0 false
  | String "-"%char rest => Z.opp <$> int_digits rest 0 false
  | t => int_digits t 0 false
  end.

Definition is_ascii (s : string) : bool :=
  forallb (fun c => (nat_of_ascii c <? 128)%nat) (list_ascii_of_string s).

(** [l[:k]], with Python's meaning of a negative bound. *)
Definition slice_to {A} (l : list A) (k : Z) : list A :=
  if 0 <=? k then firstn (Z.to_nat k) l
  else firstn (Z.to_nat (Z.of_nat (length l) + k)) l.

(** [l[i:j]] for natural bounds. *)
Definition slice {A} (l : list A) (i j : nat) : list A :=
  firstn (j - i) (skipn i l).

(** [range(0, stop, step)] for a positive step: [0, step, 2*step, ...] as
    long as the value is below [stop]. *)
Definition range_step (stop step : nat) : list nat :=
  (fun k => k * step)%nat <$> seq 0 (Nat.div (stop + step - 1) step).

(** [", ".join(names)] *)
Fixpoint join_comma (names : list string) : string :=
  match names with
  | [] => ""
  | [n] => n
  | n :: rest => n +:+ ", " +:+ join_comma rest
  end.

(** ** The environment and the monad of runs *)

(** The remote service: each call either raises or returns a reply of the
    type of the method, and moves the world on. *)
Class Remote (W : Type) := {
  respond : forall r : Request, W -> (exn + Reply r) * W
}.

Inductive Res (A : Type) :=
| Val (a : A)
| Exc (e : exn)
| OutOfFuel.
Arguments Val {A} a.
Arguments Exc {A} e.
Arguments OutOfFuel {A}.

Section Program.

Context {W : Type} {remote : Remote W}.

(** [stdin] holds the lines the user is going to type, first one first. *)
Record Env := { world : W; stdin : list string }.

Definition M (A : Type) : Type := Env -> Res A * Env * list Event.

Definition ret {A} (a : A) : M A := fun s => (Val a, s, []).

Definition bind {A B} (m : M A) (f : A -> M B) : M B :=
  fun s =>
    let '(r, s1, l1) := m s in
    match r with
    | Val a => let '(r2, s2, l2) := f a s1 in (r2, s2, l1 ++ l2)
    | Exc e => (Exc e, s1, l1)
    | OutOfFuel => (OutOfFuel, s1, l1)
    end.

Notation "'let*' x ':=' c 'in' k" := (bind c (fun x => k))
  (at level 62, x name, c at next level, right associativity).
Notation "c '>>' k" := (bind c (fun _ => k))
  (at level 62, right associativity).

Definition raise {A} (e : exn) : M A := fun s => (Exc e, s, []).

Definition out_of_fuel {A} : M A := fun s => (OutOfFuel, s, []).

(** [try: body except Exception as e: handler e]; running out of fuel is
    not an exception and is not caught. *)
Definition try_except {A} (body : M A) (handler : exn -> M A) : M A :=
  fun s =>
    let '(r, s1, l1) := body s in
    match r with
    | Exc e => let '(r2, s2, l2) := handler e s1 in (r2, s2, l1 ++ l2)
    | _ => (r, s1, l1)
    end.

Definition emit (e : Event) : M unit := fun s => (Val tt, s, [e]).

(** [console.print] of a line.  The line is taken to render: rich reads
    the names and texts interpolated in it as markup and raises
    [MarkupError] on an unmatched closing tag, which ends the run at that
    line.  What is stated of a whole run is therefore stated of the runs
    that reach the line it depends on, or of every call that was made. *)
Definition print (m : Msg) : M unit := emit (EPrint m).

(** [time.sleep(base + random.uniform(0, jitter))].  The value is taken
    not to be negative: [time.sleep] raises [ValueError] on a negative
    one, which can only come from a negative Retry-After (line 168). *)
Definition sleep (base jitter : Q) : M unit := emit (ESleep base jitter).

(** One call of a client method. *)
Definition call (r : Request) : M (Reply r) :=
  fun s =>
    let '(out, w) := respond r (world s) in
    let s' := {| world := w; stdin := stdin s |} in
    match out with
    | inl e => (Exc e, s', [ECall r (Raised e)])
    | inr v => (Val v, s', [ECall r (Returned (to_value r v))])
    end.

(** *** The console (the [rich] prompts, which are not part of the source)

    [Prompt.ask] returns the default on an empty line when there is one,
    asks again when the line is not among the choices, and fails with
    [EOFError] when the input is exhausted.  Lines are taken as typed,
    without surrounding blanks. *)

Definition accepts (choices : option (list string)) (line : string) : bool :=
  match choices with
  | None => true
  | Some cs => existsb (String.eqb line) cs
  end.

Fixpoint read_answer (choices : option (list string)) (dflt : option string)
    (lines : list string) : option (string * list string) :=
  match lines with
  | [] => None
  | line :: rest =>
      match dflt with
      | Some d =>
          if String.eqb line "" then Some (d, rest)
          else if accepts choices line then Some (line, rest)
          else read_answer choices dflt rest
      | None =>
          if accepts choices line then Some (line, rest)
          else read_answer choices dflt rest
      end
  end.

Definition Prompt_ask (choices : option (list string)) (dflt : option string)
    : M string :=
  fun s =>
    match read_answer choices dflt (stdin s) with
    | Some (answer, rest) => (Val answer, {| world := world s; stdin := rest |}, [])
    | None => (Exc EOFError, {| world := world s; stdin := [] |}, [])
    end.

(** [Confirm.ask] without a default: [y] is yes, [n] is no, in either
    case; anything else is asked again. *)
Fixpoint read_confirm (lines : list string) : option (bool * list string) :=
  match lines with
  | [] => None
  | line :: rest =>
      if String.eqb (lower line) "y" then Some (true, rest)
      else if String.eqb (lower line) "n" then Some (false, rest)
      else read_confirm rest
  end.

Definition Confirm_ask : M bool :=
  fun s =>
    match read_confirm (stdin s) with
    | Some (answer, rest) => (Val answer, {| world := world s; stdin := rest |}, [])
    | None => (Exc EOFError, {| world := world s; stdin := [] |}, [])
    end.

(** *** rate_limited_request (source lines 157-176)

    The [while retries < MAX_RETRIES] loop.  Only [SpotifyException] is
    caught; any other exception of [func] leaves the function. *)

Fixpoint retry_loop {A} (fuel : nat) (func : M A) (retries : Z) : M (option A) :=
  if retries <? MAX_RETRIES then
    match fuel with
    | O => out_of_fuel
    | S fuel' =>
        try_except
          (let* result := func in
           sleep MIN_DELAY_BASE 0.15%Q >>
           ret (Some result))
          (fun e =>
             match e with
             | SpotifyException http_status headers =>
                 if http_status =? 429 then
                   let retry_after := default 5 headers in
                   print (RateLimitHit retry_after) >>
                   sleep (inject_Z retry_after) 2%Q >>
                   retry_loop fuel' func (retries + 1)
                 else
                   print (ApiError e) >>
                   sleep (inject_Z (2 + retries * 2)) 0%Q >>
                   retry_loop fuel' func (retries + 1)
             | _ => raise e
             end)
    end
  else
    print MaxRetriesReached >>
    ret None.

Definition rate_limited_request {A} (func : M A) : M (option A) :=
  retry_loop (Z.to_nat MAX_RETRIES) func 0.

(** *** get_playlist_info_and_tracks (source lines 192-224) *)

Definition track_of_item (item : Item) : option Track :=
  match item_track item with
  | Some track =>
      match raw_uri track with
      | Some u =>
          if truthy (Some u) then
            let joined := join_comma (raw_artists track) in
            Some {| uri := u;
                    name := default "Unknown" (raw_name track);
                    artist := if String.eqb joined "" then "Unknown" else joined |}
          else None
      | None => None
      end
  | None => None
  end.

Definition page_tracks (results : Page) : list Track :=
  omap track_of_item (items results).

Fixpoint playlist_pages (fuel : nat) (results : option Page) (tracks : list Track)
    : M (list Track) :=
  match results with
  | None => ret tracks
  | Some page =>
      match fuel with
      | O => out_of_fuel
      | S fuel' =>
          let tracks := tracks ++ page_tracks page in
          if truthy (next page) then
            let* results := rate_limited_request (call (sp_next page)) in
            playlist_pages fuel' results tracks
          else ret tracks
      end
  end.

Definition playlist_info_of (playlist_data : option PlaylistData) : option PlaylistInfo :=
  match playlist_data with
  | Some d =>
      Some {| info_name := default "Unknown Playlist" (pd_name d);
              info_owner := default "Unknown" (pd_owner_display_name d);
              info_total_tracks := default 0 (pd_tracks_total d) |}
  | None => None
  end.

Definition get_playlist_info_and_tracks (fuel : nat) (id : string)
    : M (option PlaylistInfo * list Track) :=
  try_except
    (let* playlist_data := rate_limited_request (call (sp_playlist id)) in
     let playlist_info := playlist_info_of playlist_data in
     let* results := rate_limited_request (call (sp_playlist_items id)) in
     let* tracks := playlist_pages fuel results [] in
     ret (playlist_info, tracks))
    (fun e =>
       print (FailedToLoadPlaylist e) >>
       ret (None, [])).

Definition show_playlist_preview (playlist_info : option PlaylistInfo)
    (tracks : list Track) : M unit :=
  print (PlaylistPreview playlist_info tracks).

Definition show_dashboard : M unit := print Dashboard.

(** *** process_songs (source lines 262-360) *)

(** Lines 268-289: the delay between two songs.  [None] is the [return]
    of line 287. *)
Definition choose_delay (total : nat) : M (option Q) :=
  if (SAFE_THRESHOLD <? total)%nat then
    print (SafetyProtection total) >>
    ret (Some SLOW_THRESHOLD_DELAY)
  else
    print ChooseSpeedMode >>
    let* speed_choice := Prompt_ask (Some ["1"; "2"; "3"; "4"]) (Some "2") in
    if String.eqb speed_choice "4" then
      print ReturningToDashboard >>
      ret None
    else
      match SPEED_KEYS !! speed_choice with
      | Some key =>
          match SPEED_MODES !! key with
          | Some delay => ret (Some delay)
          | None => raise KeyError
          end
      | None => raise KeyError
      end.

Definition display (track : Track) : string :=
  name track +:+ " – " +:+ artist track.

(** [result[0]] on what [rate_limited_request] returned. *)
Definition first_item {A} (result : option (list A)) : M A :=
  match result with
  | None => raise TypeError
  | Some [] => raise IndexError
  | Some (x :: _) => ret x
  end.

(** One iteration of the loop of line 321, on the counters
    [(skipped, processed)]. *)
Definition process_track (mode : string) (effective_delay : Q)
    (i : nat) (track : Track) (counts : nat * nat) : M (nat * nat) :=
  let '(skipped, processed) := counts in
  let* counts :=
    try_except
      (let* counts :=
         if String.eqb mode "add" then
           let* result := rate_limited_request
                            (call (sp_current_user_saved_tracks_contains [uri track])) in
           let* is_liked := first_item result in
           if (is_liked : bool) then
             print (SkippedAlreadyLiked (display track)) >>
             ret (S skipped, processed)
           else
             rate_limited_request (call (sp_current_user_saved_tracks_add [uri track])) >>
             print (Added (display track)) >>
             ret (skipped, S processed)
         else if String.eqb mode "remove" then
           let* result := rate_limited_request
                            (call (sp_current_user_saved_tracks_contains [uri track])) in
           let* is_liked := first_item result in
           if (is_liked : bool) then
             rate_limited_request (call (sp_current_user_saved_tracks_delete [uri track])) >>
             print (Removed (display track)) >>
             ret (skipped, S processed)
           else
             print (SkippedNotLiked (display track)) >>
             ret (S skipped, processed)
         else ret (skipped, processed) in
       (if (5 <? i)%nat then emit (EEta i) else ret tt) >>
       emit (EAdvance 1) >>
       ret counts)
      (fun e =>
         print (ErrorOn (display track) e) >>
         sleep 3%Q 2%Q >>
         ret (skipped, processed)) in
  sleep effective_delay 0.15%Q >>
  ret counts.

(** [for i, track in enumerate(..., i)] over the tracks still to visit. *)
Fixpoint songs_loop (mode : string) (effective_delay : Q) (i : nat)
    (todo : list Track) (counts : nat * nat) : M (nat * nat) :=
  match todo with
  | [] => ret counts
  | track :: todo' =>
      let* counts := process_track mode effective_delay i track counts in
      songs_loop mode effective_delay (S i) todo' counts
  end.

Definition process_songs (tracks : list Track) (mode : string) : M unit :=
  let total := length tracks in
  if (total =? 0)%nat then
    print NoTracksToProcess
  else
    let* chosen := choose_delay total in
    match chosen with
    | None => ret tt
    | Some effective_delay =>
        print (Summary mode total effective_delay) >>
        let* confirmed := Confirm_ask in
        if negb confirmed then
          print Cancelled
        else
          print (Starting mode) >>
          let* counts := songs_loop mode effective_delay 1 (rev tracks) (0%nat, 0%nat) in
          print Completed >>
          print (ProcessedCount (snd counts)) >>
          print (SkippedCount (fst counts))
    end.

(** *** create_playlist_from_liked (source lines 367-430) *)

(** Lines 373-376: [int(limit_str)] unless the answer is [all]; a
    [ValueError] gives [None] as well. *)
Definition parse_limit (limit_str : string) : option Z :=
  if negb (String.eqb (lower limit_str) "all") then
    match py_int limit_str with
    | Some n => Some n
    | None => None
    end
  else None.

(** [limit or 50] *)
Definition limit_or_50 (limit : option Z) : Z :=
  if truthy_int limit then default 0 limit else 50.

Definition uri_of_item (item : Item) : option string :=
  match item_track item with
  | Some track =>
      match raw_uri track with
      | Some u => if truthy (Some u) then Some u else None
      | None => None
      end
  | None => None
  end.

Definition page_uris (results : Page) : list string :=
  omap uri_of_item (items results).

(** [limit is None or len(liked) < limit] *)
Definition below_limit (limit : option Z) (liked : list string) : bool :=
  match limit with
  | None => true
  | Some n => Z.of_nat (length liked) <? n
  end.

(** The [while results:] loop of lines 383-391. *)
Fixpoint liked_pages (fuel : nat) (limit : option Z) (results : option Page)
    (liked : list string) : M (list string) :=
  match results with
  | None => ret liked
  | Some page =>
      match fuel with
      | O => out_of_fuel
      | S fuel' =>
          let liked := liked ++ page_uris page in
          if truthy (next page) && below_limit limit liked then
            let* results := rate_limited_request (call (sp_next page)) in
            liked_pages fuel' limit results liked
          else ret liked
      end
  end.

(** Lines 393-394. *)
Definition truncate_liked (limit : option Z) (liked : list string) : list string :=
  match limit with
  | Some n =>
      if truthy_int limit && (n <? Z.of_nat (length liked)) then slice_to liked n
      else liked
  | None => liked
  end.

(** Lines 380-394: the liked songs that are going to be exported. *)
Definition fetch_liked (fuel : nat) (limit : option Z) : M (list string) :=
  let* results := rate_limited_request
                    (call (sp_current_user_saved_tracks (limit_or_50 limit))) in
  let* liked := liked_pages fuel limit results [] in
  ret (truncate_liked limit liked).

(** [playlist[...]] on what [rate_limited_request] returned. *)
Definition subscript {A} (result : option A) : M A :=
  match result with
  | Some x => ret x
  | None => raise TypeError
  end.

(** The [for i in range(0, len(liked), 100)] loop of lines 421-424, over
    the values of [i] still to come. *)
Fixpoint upload_batches (playlist : option PlaylistObject) (liked : list string)
    (starts : list nat) : M unit :=
  match starts with
  | [] => ret tt
  | i :: starts' =>
      let batch := slice liked i (i + 100) in
      let* p := subscript playlist in
      rate_limited_request (call (sp_playlist_add_items (playlist_id p) batch)) >>
      emit (EAdvance (length batch)) >>
      upload_batches playlist liked starts'
  end.

Definition create_playlist_from_liked (fuel : nat) : M unit :=
  print CreateHeader >>
  let* name := Prompt_ask None (Some "My Liked Songs Backup") in
  let* limit_str := Prompt_ask None (Some "100") in
  let limit := parse_limit limit_str in
  print FetchingLiked >>
  try_except
    (let* liked := fetch_liked fuel limit in
     print (FoundLiked (length liked)) >>
     let* confirmed := Confirm_ask in
     if negb confirmed then
       print Cancelled
     else
       let* user := call sp_current_user in
       let* playlist := rate_limited_request
                          (call (sp_user_playlist_create (user_id user) name false
                                   "Created by Lalo Spotify Tool")) in
       print AddingTracks >>
       upload_batches playlist liked (range_step (length liked) 100) >>
       print (Success name) >>
       let* p := subscript playlist in
       print (Link (playlist_url p)))
    (fun e => print (ErrorCreatingPlaylist e)).

(** *** main, the add/remove branch once the link is read (lines 518-535) *)

Definition main_playlist (fuel : nat) (choice : string) (id : string) : M unit :=
  print LoadingPlaylist >>
  let* loaded := get_playlist_info_and_tracks fuel id in
  let '(playlist_info, tracks) := loaded in
  match tracks with
  | [] =>
      print NoTracksLoaded >>
      show_dashboard
  | _ =>
      print (FoundTracks (length tracks)) >>
      show_playlist_preview playlist_info tracks >>
      let mode := if String.eqb choice "1" then "add" else "remove" in
      process_songs tracks mode >>
      print BackToDashboard >>
      show_dashboard
  end.

End Program.

Arguments Env W : clear implicits.
Arguments M W A : clear implicits.

(** ** A scripted remote service

    A world that is a list of prepared answers, consumed one per call: it
    makes the program run on concrete inputs.  An answer of the wrong kind
    for the method, or the end of the script, is an exception that is not
    a [SpotifyException]. *)

Inductive Scripted := Raises (e : exn) | Gives (v : Value).

Definition from_value (r : Request) (v : Value) : option (Reply r) :=
  match r return option (Reply r) with
  | sp_playlist _ =>
      match v with VPlaylistData d => Some d | _ => None end
  | sp_playlist_items _ | sp_next _ | sp_current_user_saved_tracks _ =>
      match v with VPage p => Some p | _ => None end
  | sp_current_user_saved_tracks_contains _ =>
      match v with VBools l => Some l | _ => None end
  | sp_current_user_saved_tracks_add _
  | sp_current_user_saved_tracks_delete _
  | sp_playlist_add_items _ _ =>
      match v with VUnit => Some tt | _ => None end
  | sp_current_user =>
      match v with VUser u => Some u | _ => None end
  | sp_user_playlist_create _ _ _ _ =>
      match v with VPlaylist p => Some p | _ => None end
  end.

Definition scripted_respond (r : Request) (script : list Scripted)
    : (exn + Reply r) * list Scripted :=
  match script with
  | [] => (inl (OtherException "end of script"), [])
  | Raises e :: rest => (inl e, rest)
  | Gives v :: rest =>
      match from_value r v with
      | Some a => (inr a, rest)
      | None => (inl (OtherException "ill-typed script"), rest)
      end
  end.

#[export] Instance scripted_remote : Remote (list Scripted) :=
  {| respond := scripted_respond |}.

Definition scripted (script : list Scripted) (lines : list string)
    : Env (list Scripted) :=
  {| world := script; stdin := lines |}.

(** Some concrete data for the examples. *)
Definition track_A : Track := {| uri := "spotify:track:A"; name := "A"; artist := "X" |}.
Definition track_B : Track := {| uri := "spotify:track:B"; name := "B"; artist := "Y" |}.
Definition track_C : Track := {| uri := "spotify:track:C"; name := "C"; artist := "Z" |}.

Definition item_of (u : string) : Item :=
  {| item_track := Some {| raw_uri := Some u; raw_name := Some u; raw_artists := ["X"] |} |}.

Definition server_error : Scripted := Raises (SpotifyException 500 None).

(** The method fails at every call. *)
#[export] Instance unavailable_remote : Remote unit :=
  {| respond := fun r w => (inl (SpotifyException 503 None), w) |}.


Definition add_fails : Env (list Scripted) :=
  scripted (Gives (VBools [false]) :: replicate 5 server_error) ["1"; "y"].

Definition three_tracks : list Track := [track_A; track_B; track_C].

(** A and C are not liked, B is. *)
Definition b_liked : Env (list Scripted) :=
  scripted [Gives (VBools [false]); Gives VUnit; Gives (VBools [true]);
            Gives (VBools [false]); Gives VUnit] [""; "y"].

(** Pages of three and of two songs; the first has a successor. *)
Definition page_one : Page :=
  {| items := [item_of "spotify:track:A"; item_of "spotify:track:B";
               item_of "spotify:track:C"];
     next := Some "https://api.spotify.com/v1/me/tracks?offset=3" |}.

Definition page_two : Page :=
  {| items := [item_of "spotify:track:D"; item_of "spotify:track:E"];
     next := None |}.

Definition some_playlist : PlaylistData :=
  {| pd_name := Some "Mix"; pd_owner_display_name := Some "lalo";
     pd_tracks_total := Some 5 |}.



(** An export of at most two liked songs, the first page having three. *)
Definition export_two : Env (list Scripted) :=
  scripted [Gives (VPage page_one);
            Gives (VUser {| user_id := "lalo" |});
            Gives (VPlaylist {| playlist_id := "new"; playlist_url := "https://open.spotify.com/playlist/new" |});
            Gives VUnit]
           ["Backup"; "2"; "y"].

(** The same export with the answers 0 and abc for the limit. *)
Definition export_zero : Env (list Scripted) :=
  scripted [Gives (VPage page_one)] ["Backup"; "0"; "n"].

Definition export_abc : Env (list Scripted) :=
  scripted [Gives (VPage page_one); Gives (VPage page_two)] ["Backup"; "abc"; "n"].

Notation "'let*' x ':=' c 'in' k" := (bind c (fun x => k))
  (at level 62, x name, c at next level, right associativity).
Notation "c '>>' k" := (bind c (fun _ => k))
  (at level 62, right associativity).

(** ** Reading a run *)

Definition result_of {S A} (run : Res A * S * list Event) : Res A := fst (fst run).
Definition env_of {S A} (run : Res A * S * list Event) : S := snd (fst run).
Definition log_of {S A} (run : Res A * S * list Event) : list Event := snd run.

(** The remote calls of a log, in order, with how each one ended. *)
Definition call_of (e : Event) : option (Request * Outcome) :=
  match e with
  | ECall r out => Some (r, out)
  | _ => None
  end.

Definition calls (log : list Event) : list (Request * Outcome) := omap call_of log.

Definition is_spotify (e : exn) : bool :=
  match e with
  | SpotifyException _ _ => true
  | _ => false
  end.


(** The line printed for a track, one per iteration of the loop of
    [process_songs]: the track as displayed. *)
Definition report_of (e : Event) : option string :=
  match e with
  | EPrint (SkippedAlreadyLiked d) | EPrint (Added d) | EPrint (Removed d)
  | EPrint (SkippedNotLiked d) | EPrint (ErrorOn d _) => Some d
  | _ => None
  end.

Definition visited (log : list Event) : list string := omap report_of log.

(** The tracks whose iteration ended in the [except] branch (line 353). *)
Definition error_of (e : Event) : option string :=
  match e with
  | EPrint (ErrorOn d _) => Some d
  | _ => None
  end.

Definition failed (log : list Event) : nat := length (omap error_of log).

(** The membership check that a mutation relies on: the last reply of
    [current_user_saved_tracks_contains], as [(uri, is_liked)]. *)
Definition guard_step (last : option (string * bool)) (c : Request * Outcome)
    : option (option (string * bool)) :=
  match c with
  | (sp_current_user_saved_tracks_contains [u], Returned (VBools (b :: _))) =>
      Some (Some (u, b))
  | (sp_current_user_saved_tracks_contains _, _) => Some None
  | (sp_current_user_saved_tracks_add [u], _) =>
      match last with
      | Some (u', false) => if String.eqb u u' then Some last else None
      | _ => None
      end
  | (sp_current_user_saved_tracks_add _, _) => None
  | (sp_current_user_saved_tracks_delete [u], _) =>
      match last with
      | Some (u', true) => if String.eqb u u' then Some last else None
      | _ => None
      end
  | (sp_current_user_saved_tracks_delete _, _) => None
  | _ => Some last
  end.

(** [guarded last cs] scans the calls [cs]: it is [None] as soon as a track
    is added whose latest check did not say "not liked", or removed whose
    latest check did not say "liked"; otherwise it gives the latest check
    at the end. *)
Fixpoint guarded (last : option (string * bool)) (cs : list (Request * Outcome))
    : option (option (string * bool)) :=
  match cs with
  | [] => Some last
  | c :: cs' =>
      match guard_step last c with
      | Some last' => guarded last' cs'
      | None => None
      end
  end.




(** The batches the loop of lines 421-424 computes. *)
Definition batches (liked : list string) : list (list string) :=
  (fun i => slice liked i (i + 100)) <$> range_step (length liked) 100.

(** ** The pacing table of the specification

    Section 4.3 of the specification, in its words; [choose_delay] above
    is what the source does. *)

Inductive Selection := Fast | Balanced | Accurate.

Inductive PacingMode := ModeFast | ModeBalanced | ModeAccurate | SafetyForced.

Record PacingDecision := { perItemDelaySeconds : Q; pacing_mode : PacingMode }.

Definition PacingPolicy_decide (trackCount : nat) (userSelection : option Selection)
    : PacingDecision :=
  if (1000 <? trackCount)%nat then
    {| perItemDelaySeconds := 1.2%Q; pacing_mode := SafetyForced |}
  else
    match userSelection with
    | Some Fast => {| perItemDelaySeconds := 0.35%Q; pacing_mode := ModeFast |}
    | Some Balanced | None => {| perItemDelaySeconds := 0.6%Q; pacing_mode := ModeBalanced |}
    | Some Accurate => {| perItemDelaySeconds := 1.5%Q; pacing_mode := ModeAccurate |}
    end.

(** What the user types at the speed prompt to make a selection; no
    selection is the empty line. *)
Definition typed (userSelection : option Selection) : string :=
  match userSelection with
  | Some Fast => "1"
  | Some Balanced => "2"
  | Some Accurate => "3"
  | None => ""
  end.

(** ** Vocabulary of the properties

    Definitions that the statements and proofs below use to describe runs
    of the program: shapes of logs, and the parts that the source functions
    are cut into. *)

Section Observations.

Context {W : Type} {remote : Remote W}.

Implicit Types (s : Env W) (log : list Event) (r : Request).


(** The call that ended the retry loop, if one did. *)
Definition final_call r (res : Res (option (Reply r))) : list (Request * Outcome) :=
  match res with
  | Val (Some v) => [(r, Returned (to_value r v))]
  | Exc e => [(r, Raised e)]
  | _ => []
  end.

(** How many failed attempts [n] go with each way the retry loop can end,
    [fuel] being the number of turns it may still take. *)
Definition retries_spent r (fuel : nat) (n : nat) (res : Res (option (Reply r)))
    : Prop :=
  match res with
  | Val (Some _) => (n < fuel)%nat
  | Val None => n = fuel
  | Exc e => (n < fuel)%nat /\ is_spotify e = false
  | OutOfFuel => False
  end.

(** What the loop prints and sleeps after a failed attempt. *)
Definition backoff (e : exn) (retries : Z) : list Event :=
  match e with
  | SpotifyException http_status headers =>
      if http_status =? 429 then
        [EPrint (RateLimitHit (default 5 headers));
         ESleep (inject_Z (default 5 headers)) 2%Q]
      else
        [EPrint (ApiError e); ESleep (inject_Z (2 + retries * 2)) 0%Q]
  | _ => []
  end.

(** The environment after a call that took the world to [w]. *)
Definition moved s (w : W) : Env W := {| world := w; stdin := stdin s |}.


(** The events of a retry loop around a method of the client. *)
Definition retry_event r (e : Event) : Prop :=
  match e with
  | ECall r' _ => r' = r
  | ESleep _ _ => True
  | EPrint (RateLimitHit _) | EPrint (ApiError _) | EPrint MaxRetriesReached => True
  | _ => False
  end.

(** The two modes main calls process_songs with. *)
Definition valid_mode (mode : string) : Prop := mode = "add" \/ mode = "remove".

(** The mutation of a mode, whether a check result leads to it, and the
    two lines a mode prints. *)
Definition mutation (mode : string) (u : string) : Request :=
  if String.eqb mode "add" then sp_current_user_saved_tracks_add [u]
  else sp_current_user_saved_tracks_delete [u].

Definition mutates (mode : string) (is_liked : bool) : bool :=
  if String.eqb mode "add" then negb is_liked else is_liked.

Definition mutated_line (mode : string) (d : string) : Msg :=
  if String.eqb mode "add" then Added d else Removed d.

Definition skipped_line (mode : string) (d : string) : Msg :=
  if String.eqb mode "add" then SkippedAlreadyLiked d else SkippedNotLiked d.

(** The end of an iteration of process_songs: lines 345-350 and 356 when
    the [try] block went through, lines 353-356 when it raised. *)
Definition iteration_end (i : nat) (delay : Q) : list Event :=
  (if (5 <? i)%nat then [EEta i] else []) ++ [EAdvance 1; ESleep delay 0.15%Q].

Definition iteration_error (d : string) (e : exn) (delay : Q) : list Event :=
  [EPrint (ErrorOn d e); ESleep 3%Q 2%Q; ESleep delay 0.15%Q].

(** What a finished check tells about the track. *)
Definition checked (u : string) (res : Res (option (list bool)))
    : option (string * bool) :=
  match res with
  | Val (Some (is_liked :: _)) => Some (u, is_liked)
  | _ => None
  end.

(** The events of the loop of process_songs. *)
Definition loop_event (e : Event) : Prop :=
  match e with
  | ECall _ _ | ESleep _ _ | EAdvance _ | EEta _ => True
  | EPrint m =>
      match m with
      | RateLimitHit _ | ApiError _ | MaxRetriesReached
      | SkippedAlreadyLiked _ | Added _ | Removed _ | SkippedNotLiked _
      | ErrorOn _ _ => True
      | _ => False
      end
  end.

(** What one iteration adds to the observations of a run. *)
Record iteration_ok (mode : string) (track : Track) (counts : nat * nat)
    (run : Res (nat * nat) * Env W * list Event) : Prop := {
  it_counts :
    exists counts', result_of run = Val counts' /\
      (fst counts' + snd counts' + failed (log_of run)
       = fst counts + snd counts + 1)%nat;
  it_visited : visited (log_of run) = [display track];
  it_guarded : forall last, is_Some (guarded last (calls (log_of run)));
  it_events : Forall loop_event (log_of run)
}.

(** What process_songs prints outside its loop, before the final counts. *)
Definition setup_event (e : Event) : Prop :=
  match e with
  | EPrint m =>
      match m with
      | NoTracksToProcess | SafetyProtection _ | ChooseSpeedMode
      | ReturningToDashboard | Summary _ _ _ | Cancelled | Starting _ => True
      | _ => False
      end
  | _ => False
  end.

(** The log of a run of process_songs that went through its loop. *)
Definition finished (mode : string) (setup : list Event)
    (loop : Res (nat * nat) * Env W * list Event) (counts : nat * nat)
    : Res unit * Env W * list Event :=
  (Val tt, env_of loop,
   setup ++ log_of loop
   ++ [EPrint Completed; EPrint (ProcessedCount (snd counts));
       EPrint (SkippedCount (fst counts))]).

(** The run printed "Completed!" (line 358). *)
Definition completed (log : list Event) : Prop := In (EPrint Completed) log.

(** How a call changes what is known from the latest membership check:
    a reply [[b; ...]] for [[u]] sets it to [(u, b)], any other end of a
    check clears it, other calls leave it. *)
Definition check_step (last : option (string * bool)) (c : Request * Outcome)
    : option (string * bool) :=
  match c with
  | (sp_current_user_saved_tracks_contains [u], Returned (VBools (b :: _))) =>
      Some (u, b)
  | (sp_current_user_saved_tracks_contains _, _) => None
  | _ => last
  end.

(** The latest membership check before the end of the calls [cs], as
    [(uri, is_liked)]. *)
Definition latest_check (cs : list (Request * Outcome)) : option (string * bool) :=
  fold_left check_step cs None.

(** The liked songs of the pages returned in the calls [cs], added to
    [count]. *)
Fixpoint collected (count : nat) (cs : list (Request * Outcome)) : nat :=
  match cs with
  | [] => count
  | (_, Returned (VPage p)) :: cs' => collected (count + length (page_uris p)) cs'
  | _ :: cs' => collected count cs'
  end.




(** Lines 396-427: what create_playlist_from_liked does with the liked
    songs it has fetched. *)
Definition export_fetched (name : string) (liked : list string) : M W unit :=
  print (FoundLiked (length liked)) >>
  let* confirmed := Confirm_ask in
  if negb confirmed then
    print Cancelled
  else
    let* user := call sp_current_user in
    let* playlist := rate_limited_request
                       (call (sp_user_playlist_create (user_id user) name false
                                "Created by Lalo Spotify Tool")) in
    print AddingTracks >>
    upload_batches playlist liked (range_step (length liked) 100) >>
    print (Success name) >>
    let* p := subscript playlist in
    print (Link (playlist_url p)).

(** What the two prompts of create_playlist_from_liked return for the
    lines typed. *)
Definition answer (dflt line : string) : string :=
  if String.eqb line "" then dflt else line.

(** Lines 378-430: create_playlist_from_liked once the two prompts are
    answered. *)
Definition export_with (fuel : nat) (name : string) (limit : option Z) : M W unit :=
  print FetchingLiked >>
  try_except
    (let* liked := fetch_liked fuel limit in export_fetched name liked)
    (fun e => print (ErrorCreatingPlaylist e)).

End Observations.

(** ** Failures that are not retried, and the calls made for a track *)



(** The calls made for one track: the attempts of the membership check,
    at least one, then the attempts of the mutation of the mode. *)
Definition block_of (mode : string) (t : Track) (block : list (Request * Outcome))
    : Prop :=
  exists checks muts,
    block = checks ++ muts /\ checks <> [] /\
    Forall (fun c => fst c = sp_current_user_saved_tracks_contains [uri t]) checks /\
    Forall (fun c => fst c = mutation mode (uri t)) muts.

(** The operations that ended in the terminal failure of line 175, each
    logged by the line "Max retries reached - aborting". *)
Definition gave_up_of (e : Event) : option unit :=
  match e with
  | EPrint MaxRetriesReached => Some tt
  | _ => None
  end.

Definition gave_up (log : list Event) : nat := length (omap gave_up_of log).

Section Failing.

Context {W : Type} {remote : Remote W}.


End Failing.

(** The service is out of reach: every call raises the same exception,
    which is not a SpotifyException. *)
Inductive Offline := offline.

#[export] Instance offline_remote : Remote Offline :=
  {| respond := fun r w => (inl (OtherException "ConnectionError"), w) |}.


(** Remove mode, both tracks liked; the delete of B, visited first, is
    refused five times, the delete of A succeeds. *)
Definition delete_fails : Env (list Scripted) :=
  scripted (Gives (VBools [true]) :: replicate 5 server_error
            ++ [Gives (VBools [true]); Gives VUnit])
           ["2"; "y"].


(** ** More of the program

    [extract_playlist_id], [clear_cache] and the part of [main] that reads
    the playlist link, with further ways of reading a log.  The credentials
    ([get_credentials], [change_credentials], [get_spotify_client]) are left
    out: they are calls into python-dotenv, the process environment and the
    OAuth flow of spotipy, and the menu loop of [main] depends on them. *)

(** *** extract_playlist_id (source lines 183-185)

    [re.search(r'playlist/([a-zA-Z0-9]+)', link)]: the leftmost place where
    the text [playlist/] is followed by a letter or digit, and the longest
    run of letters and digits from there. *)

Definition is_alnum (c : ascii) : bool :=
  let n := nat_of_ascii c in
  (((48 <=? n) && (n <=? 57)) || ((65 <=? n) && (n <=? 90))
   || ((97 <=? n) && (n <=? 122)))%nat.

(** The longest prefix matched by [[a-zA-Z0-9]*]. *)
Fixpoint take_alnum (s : string) : string :=
  match s with
  | String c rest => if is_alnum c then String c (take_alnum rest) else EmptyString
  | EmptyString => EmptyString
  end.

(** [s] without the prefix [p], when it starts with it. *)
Fixpoint strip_prefix (p s : string) : option string :=
  match p with
  | EmptyString => Some s
  | String a p' =>
      match s with
      | String b s' => if Ascii.eqb a b then strip_prefix p' s' else None
      | EmptyString => None
      end
  end.

(** The group of a match of the pattern that starts at the first
    character of [s]. *)
Definition match_here (s : string) : option string :=
  match strip_prefix "playlist/" s with
  | Some rest =>
      match take_alnum rest with
      | EmptyString => None
      | id => Some id
      end
  | None => None
  end.

Fixpoint extract_playlist_id (link : string) : option string :=
  match match_here link with
  | Some id => Some id
  | None =>
      match link with
      | String _ rest => extract_playlist_id rest
      | EmptyString => None
      end
  end.

(** Every character is a letter or a digit. *)
Definition all_alnum (s : string) : bool :=
  forallb is_alnum (list_ascii_of_string s).

(** [s] does not go on with a letter or a digit. *)
Definition stops (s : string) : bool :=
  match s with
  | String c _ => negb (is_alnum c)
  | EmptyString => true
  end.

(** *** clear_cache (source lines 82-114)

    The two paths the function looks at, each absent, a file or a
    directory (symbolic links resolved); deleting what exists succeeds,
    except [os.remove] on a directory, which raises [OSError]. *)

Inductive Node := Absent | File | Dir.

Record Files := { cache_path : Node; env_file : Node }.

Inductive CacheMsg :=
| AskDelete            (* lines 83-87 *)
| DeleteCancelled      (* line 90 *)
| CacheCleared         (* line 100 *)
| EnvFileDeleted       (* line 105 *)
| AllRemoved           (* lines 109-110 *)
| NothingToDelete.     (* line 112 *)

Definition exists_path (n : Node) : bool :=
  match n with Absent => false | _ => true end.

Definition clear_cache (files : Files) (lines : list string)
    : Res bool * Files * list string * list CacheMsg :=
  match read_confirm lines with
  | None => (Exc EOFError, files, [], [AskDelete])
  | Some (false, rest) => (Val false, files, rest, [AskDelete; DeleteCancelled])
  | Some (true, rest) =>
      let deleted := false in
      (* lines 95-101 *)
      let '(files1, deleted1, log1) :=
        if exists_path (cache_path files) then
          ({| cache_path := Absent; env_file := env_file files |}, true, [CacheCleared])
        else (files, deleted, []) in
      (* lines 103-106 *)
      match env_file files1 with
      | Absent =>
          (Val deleted1, files1, rest,
           [AskDelete] ++ log1 ++ [if deleted1 then AllRemoved else NothingToDelete])
      | File =>
          (Val true, {| cache_path := cache_path files1; env_file := Absent |}, rest,
           [AskDelete] ++ log1 ++ [EnvFileDeleted; AllRemoved])
      | Dir =>
          (Exc (OtherException "OSError"), files1, rest, [AskDelete] ++ log1)
      end
  end.

Section MoreProgram.

Context {W : Type} {remote : Remote W}.

(** *** main, from the prompt for the link (source lines 503-535) *)

(** The lines main prints itself in this part, and the log of the part:
    these lines and the events of the functions it calls. *)
Inductive ShellMsg :=
| PasteLink                 (* line 504 *)
| InvalidLink               (* line 513 *)
| PlaylistId (id : string). (* line 516 *)

Inductive ShellEvent := Core (e : Event) | Shell (m : ShellMsg).

(** [str.strip()] on ASCII text. *)
Definition strip (s : string) : string := lstrip (rstrip s).

(** One turn of the loop of main from line 503 on, for the choices 1 and
    2: the link is asked for, and the turn ends at a [continue] or at the
    end of the loop body. *)
Definition main_link (fuel : nat) (choice : string) (s : Env W)
    : Res unit * Env W * list ShellEvent :=
  let '(asked, s1, _) := Prompt_ask None None s in
  match asked with
  | Val typed_link =>
      let link := strip typed_link in
      if String.eqb (lower link) "b" || String.eqb (lower link) "back" then
        let '(r, s2, log) := show_dashboard s1 in
        (r, s2, Shell PasteLink :: (Core <$> log))
      else
        match extract_playlist_id link with
        | None => (Val tt, s1, [Shell PasteLink; Shell InvalidLink])
        | Some id =>
            let '(r, s2, log) := main_playlist fuel choice id s1 in
            (r, s2, Shell PasteLink :: Shell (PlaylistId id) :: (Core <$> log))
        end
  | Exc e => (Exc e, s1, [Shell PasteLink])
  | OutOfFuel => (OutOfFuel, s1, [Shell PasteLink])
  end.

(** The events of the called functions in a log of main. *)
Definition core_of (e : ShellEvent) : option Event :=
  match e with Core e' => Some e' | Shell _ => None end.

Definition core (log : list ShellEvent) : list Event := omap core_of log.

(** *** More on rate_limited_request *)







(** *** More on get_playlist_info_and_tracks *)

(** The pages the service returned, in the order of the calls. *)
Definition page_of (c : Request * Outcome) : option Page :=
  match snd c with
  | Returned (VPage p) => Some p
  | _ => None
  end.

Definition pages_returned (log : list Event) : list Page := omap page_of (calls log).

(** The page a retry loop ended with, if it ended with one. *)
Definition page_gained r (res : Res (option (Reply r))) : list Page :=
  omap page_of (final_call r res).

(** No track built from a page has an empty uri or an empty artist. *)
Definition well_formed (t : Track) : Prop := uri t <> "" /\ artist t <> "".

(** The run of the [try] block of get_playlist_info_and_tracks. *)
Definition load_playlist (fuel : nat) (id : string)
    : M W (option PlaylistInfo * list Track) :=
  let* playlist_data := rate_limited_request (call (sp_playlist id)) in
  let playlist_info := playlist_info_of playlist_data in
  let* results := rate_limited_request (call (sp_playlist_items id)) in
  let* tracks := playlist_pages fuel results [] in
  ret (playlist_info, tracks).

(** The progress updates of a log: one per [progress.update(advance=..)]. *)
Definition advance_of (e : Event) : option nat :=
  match e with
  | EAdvance n => Some n
  | _ => None
  end.

Definition advances (log : list Event) : list nat := omap advance_of log.

(** How far the progress bar has moved. *)
Definition advanced (log : list Event) : nat := list_sum (advances log).

(** The calls process_songs may make for a track in a mode. *)
Definition concerns (mode : string) (t : Track) (c : Request * Outcome) : Prop :=
  fst c = sp_current_user_saved_tracks_contains [uri t] \/
  fst c = mutation mode (uri t).

Record iteration_calls (mode : string) (track : Track)
    (run : Res (nat * nat) * Env W * list Event) : Prop := {
  it_concerns : Forall (concerns mode track) (calls (log_of run));
  it_budget : (1 <= length (calls (log_of run)) <= 10)%nat;
  it_progress : (advanced (log_of run) + failed (log_of run) = 1)%nat
}.

(** A call that concerns one of the tracks. *)
Definition within (mode : string) (tracks : list Track) (c : Request * Outcome)
    : Prop :=
  exists t, In t tracks /\ concerns mode t c.

(** *** More on create_playlist_from_liked *)

(** The two requests that read the liked songs. *)
Definition reads_liked (r : Request) : bool :=
  match r with
  | sp_current_user_saved_tracks _ | sp_next _ => true
  | _ => false
  end.

(** *** main, once the link is read *)

(** The three requests that read a playlist. *)
Definition loads (r : Request) : bool :=
  match r with
  | sp_playlist _ | sp_playlist_items _ | sp_next _ => true
  | _ => false
  end.

End MoreProgram.

(** Some more concrete data for the examples. *)

Definition shared_link : string :=
  "https://open.spotify.com/playlist/37i9dQZF1DXcBWIGoYBM5M?si=0a1b".

(** The login cache and the .env file are both there. *)
Definition logged_in : Files := {| cache_path := File; env_file := File |}.

(** A playlist of one page, the two songs D and E; E is not liked and is
    added, D is liked. *)
Definition load_and_add : Env (list Scripted) :=
  scripted [Gives (VPlaylistData some_playlist); Gives (VPage page_two);
            Gives (VBools [false]); Gives VUnit; Gives (VBools [true])]
           ["1"; "y"].

(** The same playlist, the input ending before the speed is chosen. *)
Definition load_and_stop : Env (list Scripted) :=
  scripted [Gives (VPlaylistData some_playlist); Gives (VPage page_two)] [].

(** The three tracks, the answer no to the confirmation. *)
Definition declined : Env (list Scripted) := scripted [] ["1"; "n"].

(** An export whose only upload is refused five times for rate limiting. *)
Definition export_rate_limited : Env (list Scripted) :=
  scripted ([Gives (VPage page_two);
             Gives (VUser {| user_id := "lalo" |});
             Gives (VPlaylist {| playlist_id := "new";
                                 playlist_url := "https://open.spotify.com/playlist/new" |})]
            ++ replicate 5 (Raises (SpotifyException 429 (Some 1))))
           ["Backup"; "all"; "y"].

(** ** Properties *)

Section Properties.

Context {W : Type} {remote : Remote W}.

Implicit Types (s : Env W) (log : list Event) (r : Request).

(** *** Runs of the monad *)

Lemma bind_unfold {A B} (m : M W A) (f : A -> M W B) s :
  bind m f s =
  match result_of (m s) with
  | Val a =>
      (result_of (f a (env_of (m s))), env_of (f a (env_of (m s))),
       log_of (m s) ++ log_of (f a (env_of (m s))))
  | Exc e => (Exc e, env_of (m s), log_of (m s))
  | OutOfFuel => (OutOfFuel, env_of (m s), log_of (m s))
  end.
Proof.
  unfold bind, result_of, env_of, log_of.
  destruct (m s) as [[[a|e|] s1] l1]; simpl; try reflexivity.
  destruct (f a s1) as [[r2 s2] l2]; reflexivity.
Qed.

Lemma try_except_unfold {A} (body : M W A) (handler : exn -> M W A) s :
  try_except body handler s =
  match result_of (body s) with
  | Exc e =>
      (result_of (handler e (env_of (body s))), env_of (handler e (env_of (body s))),
       log_of (body s) ++ log_of (handler e (env_of (body s))))
  | r => (r, env_of (body s), log_of (body s))
  end.
Proof.
  unfold try_except, result_of, env_of, log_of.
  destruct (body s) as [[[a|e|] s1] l1]; simpl; try reflexivity.
  destruct (handler e s1) as [[r2 s2] l2]; reflexivity.
Qed.

Lemma calls_app log1 log2 : calls (log1 ++ log2) = calls log1 ++ calls log2.
Proof. apply omap_app. Qed.

Lemma visited_app log1 log2 : visited (log1 ++ log2) = visited log1 ++ visited log2.
Proof. apply omap_app. Qed.

Lemma failed_app log1 log2 : failed (log1 ++ log2) = (failed log1 + failed log2)%nat.
Proof. unfold failed. rewrite omap_app. apply length_app. Qed.

(** *** rate_limited_request *)

(** One turn of the [while] loop. *)
Lemma retry_loop_step r fuel retries s :
  retries < MAX_RETRIES ->
  retry_loop (S fuel) (call r) retries s =
  match respond r (world s) with
  | (inr v, w) =>
      (Val (Some v), moved s w,
       [ECall r (Returned (to_value r v)); ESleep MIN_DELAY_BASE 0.15%Q])
  | (inl e, w) =>
      if is_spotify e then
        let again := retry_loop fuel (call r) (retries + 1) (moved s w) in
        (result_of again, env_of again,
         ECall r (Raised e) :: backoff e retries ++ log_of again)
      else (Exc e, moved s w, [ECall r (Raised e)])
  end.
Proof.
  intros Hlt. cbn [retry_loop].
  replace (retries <? MAX_RETRIES) with true by (symmetry; apply Z.ltb_lt; lia).
  unfold try_except, bind at 1, call, moved.
  destruct (respond r (world s)) as [[e|v] w]; [|reflexivity].
  destruct e as [status hdr| | | | |what]; try reflexivity.
  cbn [is_spotify backoff].
  destruct (status =? 429); unfold bind, print, sleep, emit;
    match goal with
    | |- context [retry_loop fuel ?f ?n ?x] =>
        destruct (retry_loop fuel f n x) as [[res s'] log']
    end; destruct res; reflexivity.
Qed.

Lemma retry_loop_done {A} fuel (func : M W A) retries s :
  MAX_RETRIES <= retries ->
  retry_loop fuel func retries s = (Val None, s, [EPrint MaxRetriesReached]).
Proof.
  intros Hge. destruct fuel; cbn [retry_loop];
    replace (retries <? MAX_RETRIES) with false by (symmetry; apply Z.ltb_ge; lia);
    reflexivity.
Qed.

Lemma calls_backoff e retries : calls (backoff e retries) = [].
Proof.
  destruct e as [status hdr| | | | |what]; try reflexivity.
  cbn. destruct (status =? 429); reflexivity.
Qed.

Lemma retry_loop_calls r fuel : forall retries s,
  MAX_RETRIES - retries = Z.of_nat fuel ->
  exists fails : list exn,
    Forall (fun e => is_spotify e = true) fails /\
    calls (log_of (retry_loop fuel (call r) retries s)) =
      ((fun e => (r, Raised e)) <$> fails)
      ++ final_call r (result_of (retry_loop fuel (call r) retries s)) /\
    retries_spent r fuel (length fails)
      (result_of (retry_loop fuel (call r) retries s)).
Proof.
  induction fuel as [|fuel IH]; intros retries s Hfuel.
  - rewrite retry_loop_done by lia. exists [].
    split; [constructor|]. split; reflexivity.
  - rewrite retry_loop_step by lia.
    destruct (respond r (world s)) as [[e|v] w].
    + destruct (is_spotify e) eqn:He.
      * destruct (IH (retries + 1) (moved s w)) as (fails & Hall & Hcalls & Hn); [lia|].
        exists (e :: fails). cbn [result_of env_of log_of fst snd].
        split; [constructor; assumption|].
        split.
        -- change (ECall r (Raised e) :: backoff e retries ++ ?l)
             with ([ECall r (Raised e)] ++ backoff e retries ++ l).
           rewrite !calls_app, calls_backoff, Hcalls. reflexivity.
        -- revert Hn. unfold retries_spent.
           destruct (result_of (retry_loop fuel (call r) (retries + 1) (moved s w)))
             as [[?|]|?|]; cbn [length]; intuition lia.
      * exists []. cbn. split; [constructor|]. split; [reflexivity|]. split; [lia|assumption].
    + exists []. cbn. split; [constructor|]. split; [reflexivity|lia].
Qed.

Lemma rate_limited_request_calls r s :
  exists fails : list exn,
    Forall (fun e => is_spotify e = true) fails /\
    calls (log_of (rate_limited_request (call r) s)) =
      ((fun e => (r, Raised e)) <$> fails)
      ++ final_call r (result_of (rate_limited_request (call r) s)) /\
    retries_spent r 5 (length fails) (result_of (rate_limited_request (call r) s)).
Proof. apply (retry_loop_calls r 5 0 s). reflexivity. Qed.




Lemma retry_loop_events r fuel : forall retries s,
  Forall (retry_event r) (log_of (retry_loop fuel (call r) retries s)).
Proof.
  induction fuel as [|fuel IH]; intros retries s.
  - cbn [retry_loop]. destruct (retries <? MAX_RETRIES); cbn; repeat constructor.
  - destruct (Z.lt_ge_cases retries MAX_RETRIES) as [Hlt|Hge].
    + rewrite retry_loop_step by assumption.
      destruct (respond r (world s)) as [[e|v] w]; [|cbn; repeat constructor].
      destruct (is_spotify e) eqn:He; [|cbn; repeat constructor].
      cbn [log_of snd]. constructor; [reflexivity|].
      apply Forall_app. split; [|apply IH].
      destruct e as [status hdr| | | | |what]; try discriminate.
      cbn. destruct (status =? 429); repeat constructor.
    + rewrite retry_loop_done by assumption. cbn. repeat constructor.
Qed.

Lemma retry_events_quiet r log :
  Forall (retry_event r) log -> visited log = [] /\ failed log = 0%nat.
Proof.
  induction 1 as [|e log He _ [IHv IHf]]; [split; reflexivity|].
  unfold visited, failed in *. 
  destruct e as [r' out|b j|m|n|i]; cbn in *; try (split; assumption).
  destruct m; cbn in *; try contradiction; split; assumption.
Qed.

Lemma rate_limited_request_quiet r s :
  visited (log_of (rate_limited_request (call r) s)) = [] /\
  failed (log_of (rate_limited_request (call r) s)) = 0%nat.
Proof. apply (retry_events_quiet r), retry_loop_events. Qed.

Lemma rate_limited_request_returns r s :
  result_of (rate_limited_request (call r) s) <> OutOfFuel.
Proof.
  destruct (rate_limited_request_calls r s) as (fails & _ & _ & Hn).
  intros Hres. rewrite Hres in Hn. exact Hn.
Qed.

Lemma rate_limited_request_target r s :
  Forall (fun c => fst c = r) (calls (log_of (rate_limited_request (call r) s))).
Proof.
  generalize (retry_loop_events r (Z.to_nat MAX_RETRIES) 0 s).
  change (retry_loop (Z.to_nat MAX_RETRIES) (call r) 0 s)
    with (rate_limited_request (call r) s).
  induction 1 as [|e log He _ IH]; [constructor|].
  destruct e as [r' out|b j|m|n|i]; cbn in *; try exact IH.
  constructor; [exact He|exact IH].
Qed.

(** *** One iteration of process_songs *)

Opaque rate_limited_request.

Lemma process_track_cases mode delay i track skipped processed s :
  valid_mode mode ->
  let check := rate_limited_request
                 (call (sp_current_user_saved_tracks_contains [uri track])) s in
  process_track mode delay i track (skipped, processed) s =
  match result_of check with
  | Val (Some (is_liked :: _)) =>
      if mutates mode is_liked then
        let mutate := rate_limited_request (call (mutation mode (uri track)))
                        (env_of check) in
        match result_of mutate with
        | Val _ =>
            (Val (skipped, S processed), env_of mutate,
             log_of check ++ log_of mutate
             ++ EPrint (mutated_line mode (display track)) :: iteration_end i delay)
        | Exc e =>
            (Val (skipped, processed), env_of mutate,
             log_of check ++ log_of mutate ++ iteration_error (display track) e delay)
        | OutOfFuel => (OutOfFuel, env_of mutate, log_of check ++ log_of mutate)
        end
      else
        (Val (S skipped, processed), env_of check,
         log_of check
         ++ EPrint (skipped_line mode (display track)) :: iteration_end i delay)
  | Val (Some []) =>
      (Val (skipped, processed), env_of check,
       log_of check ++ iteration_error (display track) IndexError delay)
  | Val None =>
      (Val (skipped, processed), env_of check,
       log_of check ++ iteration_error (display track) TypeError delay)
  | Exc e =>
      (Val (skipped, processed), env_of check,
       log_of check ++ iteration_error (display track) e delay)
  | OutOfFuel => (OutOfFuel, env_of check, log_of check)
  end.
Proof.
  intros [-> | ->] check; subst check;
    unfold process_track, mutation, mutates, mutated_line, skipped_line,
      iteration_end, iteration_error;
    cbn [String.eqb Ascii.eqb Bool.eqb];
    unfold try_except, bind, first_item, print, sleep, emit, ret, raise,
      result_of, env_of, log_of;
    destruct (rate_limited_request _ s) as [[[[[|[|] l]|]|e|] s1] l1];
    cbn [fst snd negb];
    try (destruct (5 <? i)%nat; cbn; rewrite <- ?app_assoc; reflexivity);
    destruct (rate_limited_request _ s1) as [[[a|e|] s2] l2];
    cbn [fst snd];
    destruct (5 <? i)%nat; cbn; rewrite <- ?app_assoc; reflexivity.
Qed.

Lemma process_track_other mode delay i track counts s :
  String.eqb mode "add" = false -> String.eqb mode "remove" = false ->
  process_track mode delay i track counts s =
  (Val counts, s, iteration_end i delay).
Proof.
  intros Ha Hr. destruct counts as [skipped processed].
  unfold process_track, iteration_end. rewrite Ha, Hr.
  unfold try_except, bind, print, sleep, emit, ret.
  destruct (5 <? i)%nat; reflexivity.
Qed.

Transparent rate_limited_request.

(** *** The guard of the mutations *)

Lemma guarded_app last cs1 cs2 :
  guarded last (cs1 ++ cs2) =
  match guarded last cs1 with
  | Some last' => guarded last' cs2
  | None => None
  end.
Proof.
  revert last. induction cs1 as [|c cs1 IH]; intros last; [reflexivity|].
  cbn [guarded app]. destruct (guard_step last c); [apply IH|reflexivity].
Qed.

Lemma guarded_failed_checks u (fails : list exn) last :
  guarded last ((fun e => (sp_current_user_saved_tracks_contains [u], Raised e)) <$> fails)
  = Some (match fails with [] => last | _ => None end).
Proof.
  revert last. induction fails as [|e fails IH]; intros last; [reflexivity|].
  cbn. rewrite IH. destruct fails; reflexivity.
Qed.

Lemma guarded_check u s last :
  let check := rate_limited_request
                 (call (sp_current_user_saved_tracks_contains [u])) s in
  guarded last (calls (log_of check)) = Some (checked u (result_of check)).
Proof.
  intros check. subst check.
  destruct (rate_limited_request_calls (sp_current_user_saved_tracks_contains [u]) s)
    as (fails & _ & -> & Hn).
  rewrite guarded_app, guarded_failed_checks.
  destruct (result_of (rate_limited_request _ s)) as [[[|b l]|]|e|];
    cbn in *; try reflexivity.
  - destruct fails; [discriminate|reflexivity].
  - destruct Hn.
Qed.

Lemma guarded_mutation mode u is_liked cs :
  valid_mode mode -> mutates mode is_liked = true ->
  Forall (fun c => fst c = mutation mode u) cs ->
  guarded (Some (u, is_liked)) cs = Some (Some (u, is_liked)).
Proof.
  intros Hmode Hm. induction 1 as [|[r out] cs Hr _ IH]; [reflexivity|].
  cbn in Hr. subst r. cbn [guarded].
  destruct Hmode as [-> | ->]; cbn in Hm |- *;
    destruct is_liked; try discriminate; rewrite String.eqb_refl; exact IH.
Qed.

Lemma retry_events_loop r log : Forall (retry_event r) log -> Forall loop_event log.
Proof.
  intros H. eapply Forall_impl; [exact H|].
  intros [r' out|b j|m|n|i]; cbn; try tauto. destruct m; tauto.
Qed.

Lemma iteration_end_summary i delay :
  visited (iteration_end i delay) = [] /\ failed (iteration_end i delay) = 0%nat /\
  calls (iteration_end i delay) = [] /\ Forall loop_event (iteration_end i delay).
Proof.
  unfold iteration_end. destruct (5 <? i)%nat; cbn; repeat split; repeat constructor.
Qed.

Lemma rate_limited_request_summary r s :
  let run := rate_limited_request (call r) s in
  visited (log_of run) = [] /\ failed (log_of run) = 0%nat /\
  result_of run <> OutOfFuel /\
  Forall (fun c => fst c = r) (calls (log_of run)) /\
  Forall loop_event (log_of run).
Proof.
  intros run. subst run.
  destruct (rate_limited_request_quiet r s) as [Hv Hf].
  repeat split; try assumption.
  - apply rate_limited_request_returns.
  - apply rate_limited_request_target.
  - apply (retry_events_loop r). apply retry_loop_events.
Qed.

Lemma process_track_ok mode delay i track counts s :
  valid_mode mode ->
  iteration_ok mode track counts (process_track mode delay i track counts s).
Proof.
  intros Hmode. destruct counts as [skipped processed].
  rewrite process_track_cases by assumption. cbv zeta.
  destruct (rate_limited_request_summary
              (sp_current_user_saved_tracks_contains [uri track]) s)
    as (Hv1 & Hf1 & Hret1 & _ & He1).
  pose proof (guarded_check (uri track) s) as Hg1. cbv zeta in Hg1.
  destruct (iteration_end_summary i delay) as (Hve & Hfe & Hce & Hee).
  set (check := rate_limited_request _ s) in *.
  assert (Herr : forall e,
    iteration_ok mode track (skipped, processed)
      (Val (skipped, processed), env_of check,
       log_of check ++ iteration_error (display track) e delay)).
  { intros e. split; cbn [result_of env_of log_of fst snd].
    - exists (skipped, processed). split; [reflexivity|].
      rewrite failed_app, Hf1. cbn. lia.
    - rewrite visited_app, Hv1. reflexivity.
    - intros last. rewrite calls_app, guarded_app, Hg1. cbn. eauto.
    - apply Forall_app. split; [exact He1|repeat constructor]. }
  destruct (result_of check) as [[[|is_liked l]|]|e|] eqn:Hres; try apply Herr;
    [|contradiction].
  destruct (mutates mode is_liked) eqn:Hm.
  - destruct (rate_limited_request_summary (mutation mode (uri track)) (env_of check))
      as (Hv2 & Hf2 & Hret2 & Ht2 & He2).
    set (mutate := rate_limited_request _ (env_of check)) in *.
    assert (Hg2 : forall last tail, calls tail = [] ->
      is_Some (guarded last (calls (log_of check ++ log_of mutate ++ tail)))).
    { intros last tail Htail.
      rewrite app_assoc, calls_app, Htail, app_nil_r, calls_app, guarded_app, Hg1.
      cbn [checked]. rewrite (guarded_mutation mode) by assumption. eauto. }
    destruct (result_of mutate) as [a|e|] eqn:Hres2; [| |contradiction].
    + split; cbn [result_of env_of log_of fst snd].
      * exists (skipped, S processed). split; [reflexivity|].
        rewrite !failed_app, Hf1, Hf2.
        change (EPrint ?m :: ?l) with ([EPrint m] ++ l). rewrite failed_app, Hfe.
        destruct Hmode as [-> | ->]; cbn; lia.
      * rewrite !visited_app, Hv1, Hv2.
        change (EPrint ?m :: ?l) with ([EPrint m] ++ l). rewrite visited_app, Hve.
        destruct Hmode as [-> | ->]; reflexivity.
      * intros last. apply Hg2.
        change (EPrint ?m :: ?l) with ([EPrint m] ++ l). rewrite calls_app, Hce. reflexivity.
      * repeat (apply Forall_app; split); try assumption.
        constructor; [|exact Hee]. destruct Hmode as [-> | ->]; exact I.
    + split; cbn [result_of env_of log_of fst snd].
      * exists (skipped, processed). split; [reflexivity|].
        rewrite !failed_app, Hf1, Hf2. cbn. lia.
      * rewrite !visited_app, Hv1, Hv2. reflexivity.
      * intros last. apply Hg2. reflexivity.
      * repeat (apply Forall_app; split); try assumption. repeat constructor.
  - split; cbn [result_of env_of log_of fst snd].
    + exists (S skipped, processed). split; [reflexivity|].
      rewrite !failed_app, Hf1.
      change (EPrint ?m :: ?l) with ([EPrint m] ++ l). rewrite failed_app, Hfe.
      destruct Hmode as [-> | ->]; cbn; lia.
    + rewrite !visited_app, Hv1.
      change (EPrint ?m :: ?l) with ([EPrint m] ++ l). rewrite visited_app, Hve.
      destruct Hmode as [-> | ->]; reflexivity.
    + intros last. rewrite calls_app, guarded_app, Hg1.
      change (EPrint ?m :: ?l) with ([EPrint m] ++ l). rewrite calls_app, Hce. cbn. eauto.
    + apply Forall_app. split; [exact He1|].
      constructor; [|exact Hee]. destruct Hmode as [-> | ->]; exact I.
Qed.

Lemma mode_cases mode :
  valid_mode mode \/
  (String.eqb mode "add" = false /\ String.eqb mode "remove" = false).
Proof.
  destruct (String.eqb mode "add") eqn:Ha.
  - left. left. apply String.eqb_eq, Ha.
  - destruct (String.eqb mode "remove") eqn:Hr.
    + left. right. apply String.eqb_eq, Hr.
    + right. split; reflexivity.
Qed.

(** *** The loop of process_songs *)

Lemma songs_loop_ok mode delay :
  valid_mode mode ->
  forall todo i counts s,
    let run := songs_loop mode delay i todo counts s in
    (exists counts', result_of run = Val counts' /\
       (fst counts' + snd counts' + failed (log_of run)
        = fst counts + snd counts + length todo)%nat) /\
    visited (log_of run) = display <$> todo.
Proof.
  intros Hmode. induction todo as [|track todo IH]; intros i counts s run; subst run.
  - cbn. split; [|reflexivity]. exists counts. split; [reflexivity|lia].
  - cbn [songs_loop]. rewrite bind_unfold.
    destruct (process_track_ok mode delay i track counts s Hmode)
      as [(counts1 & Hres & Hsum) Hvis _ _].
    rewrite Hres. cbn [result_of env_of log_of fst snd].
    specialize (IH (S i) counts1 (env_of (process_track mode delay i track counts s))).
    cbv zeta in IH. destruct IH as [(counts2 & Hres2 & Hsum2) Hvis2].
    split.
    + exists counts2. split; [exact Hres2|].
      rewrite failed_app. cbn [length]. lia.
    + rewrite visited_app, Hvis, Hvis2. reflexivity.
Qed.

Lemma songs_loop_guarded mode delay :
  forall todo i counts s last,
    let run := songs_loop mode delay i todo counts s in
    (exists counts', result_of run = Val counts') /\
    is_Some (guarded last (calls (log_of run))) /\
    Forall loop_event (log_of run).
Proof.
  induction todo as [|track todo IH]; intros i counts s last run; subst run.
  - cbn. split; [eauto|]. split; [eauto|constructor].
  - cbn [songs_loop]. rewrite bind_unfold.
    assert (Hit : exists counts1,
      result_of (process_track mode delay i track counts s) = Val counts1 /\
      is_Some (guarded last (calls (log_of (process_track mode delay i track counts s)))) /\
      Forall loop_event (log_of (process_track mode delay i track counts s))).
    { destruct (mode_cases mode) as [Hmode|[Ha Hr]].
      - destruct (process_track_ok mode delay i track counts s Hmode)
          as [(counts1 & Hres & _) _ Hg He]. eauto.
      - rewrite process_track_other by assumption.
        destruct (iteration_end_summary i delay) as (_ & _ & Hce & Hee).
        exists counts. cbn [result_of log_of fst snd]. rewrite Hce. cbn. eauto. }
    destruct Hit as (counts1 & Hres & [last1 Hg] & He).
    rewrite Hres. cbn [result_of env_of log_of fst snd].
    specialize (IH (S i) counts1 (env_of (process_track mode delay i track counts s)) last1).
    cbv zeta in IH. destruct IH as (Hres2 & Hg2 & He2).
    split; [exact Hres2|]. split.
    + rewrite calls_app, guarded_app, Hg. exact Hg2.
    + apply Forall_app. split; assumption.
Qed.

(** *** process_songs as a whole *)

Lemma choose_delay_events total s :
  Forall setup_event (log_of (choose_delay total s)).
Proof.
  unfold choose_delay, bind, print, emit, Prompt_ask, ret, raise.
  destruct (SAFE_THRESHOLD <? total)%nat; [repeat constructor|].
  cbn [fst snd]. destruct (read_answer _ _ (stdin s)) as [[answer rest]|];
    [|repeat constructor].
  destruct (String.eqb answer "4"); [repeat constructor|].
  destruct (SPEED_KEYS !! answer) as [key|]; [|repeat constructor].
  destruct (SPEED_MODES !! key); repeat constructor.
Qed.

Lemma process_songs_cases tracks mode s :
  Forall setup_event (log_of (process_songs tracks mode s)) \/
  exists delay s1 setup counts,
    Forall setup_event setup /\
    result_of (songs_loop mode delay 1 (rev tracks) (0%nat, 0%nat) s1) = Val counts /\
    process_songs tracks mode s =
      finished mode setup (songs_loop mode delay 1 (rev tracks) (0%nat, 0%nat) s1) counts.
Proof.
  remember (process_songs tracks mode s) as run eqn:Hrun.
  unfold process_songs in Hrun.
  destruct (length tracks =? 0)%nat; [left; subst run; repeat constructor|].
  pose proof (choose_delay_events (length tracks) s) as Hsetup.
  unfold bind at 1 in Hrun.
  destruct (choose_delay (length tracks) s) as [[[[delay|]|e|] s1] l1];
    cbn [log_of snd] in Hsetup;
    try (left; subst run; cbn; rewrite ?app_nil_r; exact Hsetup).
  unfold bind at 1 2, print at 1, emit at 1, Confirm_ask in Hrun.
  destruct (read_confirm (stdin s1)) as [[[|] rest]|]; cbn [negb] in Hrun.
  - right.
    destruct (songs_loop_guarded mode delay (rev tracks) 1%nat (0%nat, 0%nat)
                {| world := world s1; stdin := rest |} None)
      as ((counts & Hres) & _ & _).
    exists delay, {| world := world s1; stdin := rest |},
      (l1 ++ [EPrint (Summary mode (length tracks) delay); EPrint (Starting mode)]),
      counts.
    split; [apply Forall_app; split; [exact Hsetup|repeat constructor]|].
    split; [exact Hres|].
    unfold finished, bind, print, emit, result_of, env_of, log_of in *.
    destruct (songs_loop mode delay 1 (rev tracks) (0%nat, 0%nat) _) as [[res s2] l2].
    cbn in Hres. subst res run. cbn. rewrite <- !app_assoc. reflexivity.
  - left. subst run. cbn. apply Forall_app. split; [exact Hsetup|repeat constructor].
  - left. subst run. cbn. apply Forall_app. split; [exact Hsetup|repeat constructor].
Qed.

Lemma setup_events_summary log :
  Forall setup_event log ->
  visited log = [] /\ failed log = 0%nat /\ calls log = [] /\ ~ completed log /\
  (forall n, ~ In (EPrint (ProcessedCount n)) log) /\
  (forall n, ~ In (EPrint (SkippedCount n)) log).
Proof.
  unfold completed.
  induction 1 as [|e log He _ (IHv & IHf & IHc & IHd & IHp & IHs)].
  - repeat split; try reflexivity; cbn; tauto.
  - destruct e as [r out|b j|m|n|i]; try contradiction.
    unfold visited, failed, calls in *.
    destruct m; try contradiction; cbn;
      (repeat split; try assumption;
       [intros [Heq|Hin]; [discriminate|exact (IHd Hin)]
       |intros n [Heq|Hin]; [discriminate|exact (IHp n Hin)]
       |intros n [Heq|Hin]; [discriminate|exact (IHs n Hin)]]).
Qed.

Lemma loop_events_summary log :
  Forall loop_event log ->
  ~ completed log /\
  (forall n, ~ In (EPrint (ProcessedCount n)) log) /\
  (forall n, ~ In (EPrint (SkippedCount n)) log).
Proof.
  unfold completed. induction 1 as [|e log He _ (IHd & IHp & IHs)].
  - repeat split; cbn; tauto.
  - repeat split; [|intros n|intros n]; intros [Heq|Hin];
      try (subst e; exact He); [exact (IHd Hin)|exact (IHp n Hin)|exact (IHs n Hin)].
Qed.

Lemma guard_step_check last c last' :
  guard_step last c = Some last' -> last' = check_step last c.
Proof.
  destruct c as [r out]. unfold guard_step, check_step.
  destruct r; try congruence.
  - destruct tracks as [|u [|]]; try congruence.
    destruct out as [e|[]]; try congruence. destruct l; congruence.
  - destruct tracks as [|u [|]]; try congruence.
    destruct last as [[u' []]|]; try congruence.
    destruct (String.eqb u u'); congruence.
  - destruct tracks as [|u [|]]; try congruence.
    destruct last as [[u' []]|]; try congruence.
    destruct (String.eqb u u'); congruence.
Qed.

Lemma guard_step_mutation last r out last' :
  guard_step last (r, out) = Some last' ->
  (forall l, r = sp_current_user_saved_tracks_add l ->
     exists u, l = [u] /\ last = Some (u, false)) /\
  (forall l, r = sp_current_user_saved_tracks_delete l ->
     exists u, l = [u] /\ last = Some (u, true)).
Proof.
  intros Hstep. split; intros l ->; cbn in Hstep;
    destruct l as [|u [|]]; try discriminate;
    destruct last as [[u' []]|]; try discriminate;
    destruct (String.eqb u u') eqn:Hu; try discriminate;
    apply String.eqb_eq in Hu; subst u'; eauto.
Qed.

Lemma guarded_sound cs : forall last pre c post,
  is_Some (guarded last cs) -> cs = pre ++ c :: post ->
  is_Some (guard_step (fold_left check_step pre last) c).
Proof.
  induction cs as [|c0 cs IH]; intros last pre c post Hg Hsplit.
  - destruct pre; discriminate.
  - cbn [guarded] in Hg. destruct (guard_step last c0) as [last0|] eqn:Hstep;
      [|destruct Hg; discriminate].
    destruct pre as [|c1 pre]; cbn in Hsplit; inversion Hsplit; subst.
    + cbn. rewrite Hstep. eauto.
    + cbn [fold_left]. rewrite <- (guard_step_check _ _ _ Hstep).
      eapply IH; [exact Hg|reflexivity].
Qed.

(** C5. In every run of process_songs, whatever the mode and the replies
    of the service: each call of the add-mutation is for one track whose
    latest membership check, at that point of the run, was for the same
    track and reported it as not liked; each call of the remove-mutation is
    for one track whose latest check reported it as liked. *)
Theorem mutation_follows_its_check tracks mode s pre r out post :
  calls (log_of (process_songs tracks mode s)) = pre ++ (r, out) :: post ->
  (forall l, r = sp_current_user_saved_tracks_add l ->
     exists u, l = [u] /\ latest_check pre = Some (u, false)) /\
  (forall l, r = sp_current_user_saved_tracks_delete l ->
     exists u, l = [u] /\ latest_check pre = Some (u, true)).
Proof.
  intros Hsplit.
  assert (Hg : is_Some (guarded None (calls (log_of (process_songs tracks mode s))))).
  { destruct (process_songs_cases tracks mode s)
      as [Hsetup|(delay & s1 & setup & counts & Hsetup & _ & ->)].
    - apply setup_events_summary in Hsetup as (_ & _ & -> & _). cbn. eauto.
    - apply setup_events_summary in Hsetup as (_ & _ & Hc & _).
      unfold finished. cbn [log_of snd].
      rewrite !calls_app, Hc, app_nil_r. cbn [app].
      apply songs_loop_guarded. }
  destruct (guarded_sound _ None pre (r, out) post Hg Hsplit) as [last' Hstep].
  exact (guard_step_mutation _ _ _ _ Hstep).
Qed.

Lemma rate_limited_request_nonempty r s :
  calls (log_of (rate_limited_request (call r) s)) <> [].
Proof.
  destruct (rate_limited_request_calls r s) as (fails & _ & -> & Hn).
  destruct (result_of (rate_limited_request (call r) s)) as [[v|]|e|];
    cbn [final_call retries_spent] in *.
  - intros H. apply app_eq_nil in H as [_ H]. discriminate.
  - rewrite app_nil_r. destruct fails; [discriminate Hn|discriminate].
  - intros H. apply app_eq_nil in H as [_ H]. discriminate.
  - destruct Hn.
Qed.

(** The calls of one iteration: checks of the track, then mutations of it. *)
Lemma process_track_block mode delay i track counts s :
  valid_mode mode ->
  block_of mode track (calls (log_of (process_track mode delay i track counts s))).
Proof.
  intros Hmode. destruct counts as [skipped processed].
  rewrite process_track_cases by assumption. cbv zeta.
  pose proof (rate_limited_request_target
                (sp_current_user_saved_tracks_contains [uri track]) s) as Ht1.
  pose proof (rate_limited_request_nonempty
                (sp_current_user_saved_tracks_contains [uri track]) s) as Hn1.
  destruct (rate_limited_request_summary
              (sp_current_user_saved_tracks_contains [uri track]) s)
    as (_ & _ & Hret1 & _).
  destruct (iteration_end_summary i delay) as (_ & _ & Hce & _).
  set (check := rate_limited_request _ s) in *.
  assert (Halone : forall tail, calls tail = [] ->
            block_of mode track (calls (log_of check ++ tail))).
  { intros tail Htail. exists (calls (log_of check)), [].
    rewrite calls_app, Htail. repeat split; [exact Hn1|exact Ht1|constructor]. }
  destruct (result_of check) as [[[|is_liked l]|]|e|] eqn:Hres; cbn [log_of snd];
    try (apply Halone; reflexivity); [|contradiction].
  destruct (mutates mode is_liked) eqn:Hm; cbn [log_of snd].
  - pose proof (rate_limited_request_target (mutation mode (uri track)) (env_of check))
      as Ht2.
    destruct (rate_limited_request_summary (mutation mode (uri track)) (env_of check))
      as (_ & _ & Hret2 & _).
    set (mutate := rate_limited_request _ (env_of check)) in *.
    assert (Hboth : forall tail, calls tail = [] ->
              block_of mode track (calls (log_of check ++ log_of mutate ++ tail))).
    { intros tail Htail. exists (calls (log_of check)), (calls (log_of mutate)).
      rewrite !calls_app, Htail, app_nil_r. repeat split; assumption. }
    destruct (result_of mutate) as [a|e|] eqn:Hres2; cbn [log_of snd];
      [| |contradiction].
    + apply Hboth. exact Hce.
    + apply Hboth. reflexivity.
  - apply Halone. exact Hce.
Qed.

Lemma songs_loop_blocks mode delay :
  valid_mode mode ->
  forall todo i counts s,
    exists blocks,
      calls (log_of (songs_loop mode delay i todo counts s)) = concat blocks /\
      Forall2 (block_of mode) todo blocks.
Proof.
  intros Hmode. induction todo as [|track todo IH]; intros i counts s.
  - exists []. split; [reflexivity|constructor].
  - cbn [songs_loop]. rewrite bind_unfold.
    destruct (process_track_ok mode delay i track counts s Hmode)
      as [(counts1 & Hres & _) _ _ _].
    pose proof (process_track_block mode delay i track counts s Hmode) as Hblock.
    rewrite Hres. cbn [result_of env_of log_of fst snd].
    destruct (IH (S i) counts1 (env_of (process_track mode delay i track counts s)))
      as (blocks & Hcalls & Hall).
    exists (calls (log_of (process_track mode delay i track counts s)) :: blocks).
    split.
    + rewrite calls_app, Hcalls. reflexivity.
    + constructor; assumption.
Qed.

(** C4. In add or remove mode the calls of a run of process_songs are
    made track by track, in the reversed order of the input list (the
    last track of the list comes first): they split into one block per
    visited track, each block being the attempts of the membership check
    of that track's uri, at least one, followed by the attempts of the
    mutation of that uri.  The visited tracks are the first ones of the
    reversed list; a run that prints "Completed!" has visited all N of
    them, exactly one block each, and has printed exactly one line per
    track (skipped, added, removed or error), naming the tracks in the
    same reversed order. *)
Theorem tracks_visited_in_reverse tracks mode s :
  valid_mode mode ->
  let log := log_of (process_songs tracks mode s) in
  exists blocks,
    calls log = concat blocks /\
    Forall2 (block_of mode) (firstn (length blocks) (rev tracks)) blocks /\
    (completed log ->
     length blocks = length tracks /\
     visited log = display <$> rev tracks).
Proof.
  intros Hmode. cbv zeta.
  destruct (process_songs_cases tracks mode s)
    as [Hsetup|(delay & s1 & setup & counts & Hsetup & Hres & ->)].
  - apply setup_events_summary in Hsetup as (_ & _ & Hcalls & Hno & _).
    exists []. split; [exact Hcalls|]. split; [constructor|].
    intros Hdone. contradiction.
  - destruct (songs_loop_blocks mode delay Hmode (rev tracks) 1%nat (0%nat, 0%nat) s1)
      as (blocks & Hcalls & Hall).
    pose proof (Forall2_length _ _ _ Hall) as Hlen. rewrite length_rev in Hlen.
    apply setup_events_summary in Hsetup as (Hv & _ & Hc & _).
    exists blocks. unfold finished. cbn [log_of snd].
    rewrite !calls_app, Hc, Hcalls. cbn [app]. split.
    { change (calls [_; _; _]) with (@nil (Request * Outcome)). apply app_nil_r. }
    split.
    { rewrite <- Hlen, <- (length_rev tracks), firstn_all. exact Hall. }
    intros _. split; [symmetry; exact Hlen|].
    rewrite !visited_app, Hv.
    rewrite (proj2 (songs_loop_ok mode delay Hmode (rev tracks) 1%nat (0%nat, 0%nat) s1)).
    cbn. apply app_nil_r.
Qed.

(** *** The delay between two songs *)

(** C3. Above 1000 tracks the delay is 1.2 seconds and the speed prompt is
    not even read; up to 1000 tracks the answers 1, 2 and 3 (Fast,
    Balanced, Accurate) give 0.35, 0.6 and 1.5 seconds, and an empty answer
    gives the default, Balanced.  In both cases the delay is the one of the
    table of the specification. *)
Theorem choose_delay_table total s :
  ((1000 < total)%nat ->
   choose_delay total s = (Val (Some 1.2%Q), s, [EPrint (SafetyProtection total)]) /\
   forall selection,
     PacingPolicy_decide total selection =
     {| perItemDelaySeconds := 1.2%Q; pacing_mode := SafetyForced |}) /\
  ((total <= 1000)%nat ->
   forall selection rest,
     stdin s = typed selection :: rest ->
     choose_delay total s =
       (Val (Some (perItemDelaySeconds (PacingPolicy_decide total selection))),
        {| world := world s; stdin := rest |}, [EPrint ChooseSpeedMode]) /\
     perItemDelaySeconds (PacingPolicy_decide total selection) =
       match selection with
       | Some Fast => 0.35%Q
       | Some Balanced | None => 0.6%Q
       | Some Accurate => 1.5%Q
       end).
Proof.
  unfold choose_delay, PacingPolicy_decide, SAFE_THRESHOLD. split.
  - intros Hbig. apply Nat.ltb_lt in Hbig. rewrite Hbig.
    split; [|reflexivity]. destruct s; reflexivity.
  - intros Hsmall. apply Nat.ltb_ge in Hsmall. rewrite Hsmall.
    intros selection rest Hin.
    unfold bind, print, emit, Prompt_ask. rewrite Hin.
    destruct selection as [[]|]; split; reflexivity.
Qed.

(** *** Fetching the tracks of a playlist *)




(** *** Exporting the liked songs *)

Lemma liked_pages_none fuel limit liked s :
  liked_pages fuel limit None liked s = (Val liked, s, []).
Proof. destruct fuel; reflexivity. Qed.









(** **** The batches *)

Lemma batches_unfold (liked : list string) :
  batches liked =
  (fun k => firstn 100 (skipn (k * 100) liked)) <$> seq 0 (Nat.div (length liked + 99) 100).
Proof.
  unfold batches, range_step, slice. rewrite <- list_fmap_compose.
  replace (length liked + 100 - 1)%nat with (length liked + 99)%nat by lia.
  apply list_fmap_ext. intros _ k _. cbn. f_equal. lia.
Qed.

Lemma chunks_concat m : forall (l : list string),
  (length l <= m * 100)%nat ->
  concat ((fun k => firstn 100 (skipn (k * 100) l)) <$> seq 0 m) = l.
Proof.
  induction m as [|m IH]; intros l Hlen.
  - destruct l; [reflexivity|cbn in Hlen; lia].
  - cbn [seq fmap list_fmap concat]. rewrite <- seq_shift.
    change (map S (seq 0 m)) with (S <$> seq 0 m).
    rewrite <- list_fmap_compose.
    rewrite (list_fmap_ext _ (fun k => firstn 100 (skipn (k * 100) (skipn 100 l)))).
    + rewrite IH; [apply firstn_skipn|]. rewrite length_skipn. lia.
    + intros _ k _. cbn [compose]. rewrite skipn_skipn. do 2 f_equal. lia.
Qed.

Lemma batches_concat liked : concat (batches liked) = liked.
Proof.
  rewrite batches_unfold. apply chunks_concat.
  pose proof (Nat.div_mod_eq (length liked + 99) 100).
  pose proof (Nat.mod_upper_bound (length liked + 99) 100). lia.
Qed.





(** **** The export as a whole *)

Lemma log_of_bind {A B} (m : M W A) (f : A -> M W B) s :
  log_of (bind m f s) =
  log_of (m s)
  ++ match result_of (m s) with
     | Val a => log_of (f a (env_of (m s)))
     | _ => []
     end.
Proof.
  rewrite bind_unfold. destruct (result_of (m s)); cbn; rewrite ?app_nil_r; reflexivity.
Qed.

Lemma log_of_try_except {A} (body : M W A) (handler : exn -> M W A) s :
  log_of (try_except body handler s) =
  log_of (body s)
  ++ match result_of (body s) with
     | Exc e => log_of (handler e (env_of (body s)))
     | _ => []
     end.
Proof.
  rewrite try_except_unfold.
  destruct (result_of (body s)); cbn; rewrite ?app_nil_r; reflexivity.
Qed.




Lemma create_playlist_from_liked_unfold fuel s :
  create_playlist_from_liked fuel s =
  (print CreateHeader >>
   let* name := Prompt_ask None (Some "My Liked Songs Backup") in
   let* limit_str := Prompt_ask None (Some "100") in
   print FetchingLiked >>
   try_except
     (let* liked := fetch_liked fuel (parse_limit limit_str) in export_fetched name liked)
     (fun e => print (ErrorCreatingPlaylist e))) s.
Proof. reflexivity. Qed.


Lemma calls_print m log : calls (EPrint m :: log) = calls log.
Proof. reflexivity. Qed.

Ltac log_step :=
  cbv beta; rewrite log_of_bind;
  cbn [print emit ret raise subscript result_of env_of log_of fst snd app negb].


Lemma upload_batches_events playlist liked : forall starts s,
  Forall loop_event (log_of (upload_batches playlist liked starts s)).
Proof.
  induction starts as [|i starts IH]; intros s; [constructor|].
  cbn [upload_batches]. log_step.
  destruct playlist as [p|]; cbn [subscript ret raise result_of env_of log_of fst snd app];
    [|constructor].
  log_step. apply Forall_app. split.
  - apply (retry_events_loop (sp_playlist_add_items (playlist_id p) (slice liked i (i + 100)))).
    apply retry_loop_events.
  - destruct (result_of (rate_limited_request _ s)); try constructor.
    log_step. constructor; [exact I|apply IH].
Qed.



Lemma export_fetched_log name liked s :
  log_of (export_fetched name liked s) =
  EPrint (FoundLiked (length liked)) ::
  match read_confirm (stdin s) with
  | Some (true, rest) =>
      let user := call sp_current_user {| world := world s; stdin := rest |} in
      log_of user ++
      match result_of user with
      | Val u =>
          let create :=
            rate_limited_request
              (call (sp_user_playlist_create (user_id u) name false
                       "Created by Lalo Spotify Tool")) (env_of user) in
          log_of create ++
          match result_of create with
          | Val playlist =>
              let upload :=
                upload_batches playlist liked (range_step (length liked) 100)
                  (env_of create) in
              EPrint AddingTracks :: log_of upload ++
              match result_of upload with
              | Val _ =>
                  EPrint (Success name) ::
                  match playlist with
                  | Some p => [EPrint (Link (playlist_url p))]
                  | None => []
                  end
              | _ => []
              end
          | _ => []
          end
      | _ => []
      end
  | Some (false, _) => [EPrint Cancelled]
  | None => []
  end.
Proof.
  unfold export_fetched. do 2 log_step. f_equal.
  unfold Confirm_ask at 1 2 3.
  destruct (read_confirm (stdin s)) as [[[|] rest]|];
    cbn [result_of env_of log_of fst snd app negb]; try reflexivity.
  log_step. cbv zeta. f_equal.
  destruct (result_of (call sp_current_user _)) as [user|e|]; try reflexivity.
  log_step. f_equal.
  destruct (result_of (rate_limited_request _ _)) as [playlist|e|]; try reflexivity.
  do 2 log_step. do 2 f_equal.
  destruct (result_of (upload_batches _ _ _ _)); try reflexivity.
  do 2 log_step. destruct playlist; reflexivity.
Qed.



Lemma bind_val {A B} (m : M W A) (f : A -> M W B) s a s1 l1 :
  m s = (Val a, s1, l1) ->
  bind m f s = (result_of (f a s1), env_of (f a s1), l1 ++ log_of (f a s1)).
Proof.
  intros Hm. unfold bind. rewrite Hm. destruct (f a s1) as [[r2 s2] l2]. reflexivity.
Qed.

Lemma Prompt_ask_free dflt line rest s :
  stdin s = line :: rest ->
  Prompt_ask None (Some dflt) s =
  (Val (answer dflt line), {| world := world s; stdin := rest |}, []).
Proof.
  intros Hin. unfold Prompt_ask, answer. rewrite Hin. cbn.
  destruct (String.eqb line ""); reflexivity.
Qed.

Lemma create_playlist_from_liked_log fuel s name_line limit_line rest :
  stdin s = name_line :: limit_line :: rest ->
  let name := answer "My Liked Songs Backup" name_line in
  let fetch := fetch_liked fuel (parse_limit (answer "100" limit_line))
                 {| world := world s; stdin := rest |} in
  log_of (create_playlist_from_liked fuel s) =
  EPrint CreateHeader :: EPrint FetchingLiked ::
  log_of fetch ++
  match result_of fetch with
  | Val liked =>
      log_of (export_fetched name liked (env_of fetch)) ++
      match result_of (export_fetched name liked (env_of fetch)) with
      | Exc e => [EPrint (ErrorCreatingPlaylist e)]
      | _ => []
      end
  | Exc e => [EPrint (ErrorCreatingPlaylist e)]
  | OutOfFuel => []
  end.
Proof.
  intros Hin name fetch. rewrite create_playlist_from_liked_unfold.
  erewrite bind_val by reflexivity.
  erewrite bind_val by (apply Prompt_ask_free; exact Hin).
  erewrite bind_val by (apply Prompt_ask_free; reflexivity).
  erewrite bind_val by reflexivity.
  cbn [log_of snd app world stdin]. do 2 f_equal.
  rewrite log_of_try_except, log_of_bind, bind_unfold. fold name fetch.
  destruct (result_of fetch) as [liked|e|]; cbn [result_of env_of log_of fst snd];
    rewrite <- ?app_assoc; reflexivity.
Qed.

Lemma liked_pages_events limit fuel : forall results liked s,
  Forall loop_event (log_of (liked_pages fuel limit results liked s)).
Proof.
  induction fuel as [|fuel IH]; intros results liked s.
  - destruct results; constructor.
  - destruct results as [page|]; [|constructor].
    cbn [liked_pages].
    destruct (truthy (next page) && below_limit limit (liked ++ page_uris page));
      [|constructor].
    log_step. apply Forall_app. split.
    + apply (retry_events_loop (sp_next page)), retry_loop_events.
    + destruct (result_of (rate_limited_request _ s)); try constructor. apply IH.
Qed.

Lemma fetch_liked_events limit fuel s :
  Forall loop_event (log_of (fetch_liked fuel limit s)).
Proof.
  unfold fetch_liked. log_step. apply Forall_app. split.
  - apply (retry_events_loop (sp_current_user_saved_tracks (limit_or_50 limit))),
      retry_loop_events.
  - destruct (result_of (rate_limited_request _ s)); try constructor.
    log_step. apply Forall_app. split; [apply liked_pages_events|].
    destruct (result_of (liked_pages _ _ _ _ _)); constructor.
Qed.



Lemma calls_handler (res : Res unit) :
  calls match res with
        | Exc e => [EPrint (ErrorCreatingPlaylist e)]
        | _ => []
        end = [].
Proof. destruct res; reflexivity. Qed.


Lemma create_playlist_from_liked_run fuel s name_line limit_line rest :
  stdin s = name_line :: limit_line :: rest ->
  let run := export_with fuel (answer "My Liked Songs Backup" name_line)
               (parse_limit (answer "100" limit_line))
               {| world := world s; stdin := rest |} in
  create_playlist_from_liked fuel s =
  (result_of run, env_of run, EPrint CreateHeader :: log_of run).
Proof.
  intros Hin run. rewrite create_playlist_from_liked_unfold.
  erewrite bind_val by reflexivity.
  erewrite bind_val by (apply Prompt_ask_free; exact Hin).
  erewrite bind_val by (apply Prompt_ask_free; reflexivity).
  reflexivity.
Qed.

Lemma fetch_liked_zero fuel s :
  let first := rate_limited_request (call (sp_current_user_saved_tracks 50)) s in
  fetch_liked (S fuel) (Some 0) s =
  (match result_of first with
   | Val (Some page) => Val (page_uris page)
   | Val None => Val []
   | Exc e => Exc e
   | OutOfFuel => OutOfFuel
   end, env_of first, log_of first).
Proof.
  intros first. unfold fetch_liked.
  change (limit_or_50 (Some 0)) with 50. rewrite bind_unfold. fold first.
  destruct (result_of first) as [[page|]|e|]; try reflexivity.
  - rewrite bind_unfold. cbn [liked_pages below_limit app].
    replace (Z.of_nat (length (page_uris page)) <? 0) with false
      by (symmetry; apply Z.ltb_ge; lia).
    rewrite andb_false_r. cbn. rewrite !app_nil_r. reflexivity.
  - rewrite bind_unfold. cbn. rewrite !app_nil_r. reflexivity.
Qed.

(** C9. The answer 0 is read as the limit 0, and with the limit 0 the
    export asks for a first page of 50 liked songs, asks for no further
    page, and keeps every song of that page: the list handed to the rest of
    create_playlist_from_liked (confirmation, creation, upload) is the
    whole first page, not the empty list. *)
Theorem limit_zero_exports_first_page :
  parse_limit "0" = Some 0 /\
  (forall fuel s,
     let first := rate_limited_request (call (sp_current_user_saved_tracks 50)) s in
     fetch_liked (S fuel) (Some 0) s =
     (match result_of first with
      | Val (Some page) => Val (page_uris page)
      | Val None => Val []
      | Exc e => Exc e
      | OutOfFuel => OutOfFuel
      end, env_of first, log_of first)) /\
  (forall fuel s name_line rest page,
     stdin s = name_line :: "0" :: rest ->
     let s0 := {| world := world s; stdin := rest |} in
     let first := rate_limited_request (call (sp_current_user_saved_tracks 50)) s0 in
     result_of first = Val (Some page) ->
     let export := export_fetched (answer "My Liked Songs Backup" name_line)
                     (page_uris page) (env_of first) in
     log_of (create_playlist_from_liked (S fuel) s) =
     EPrint CreateHeader :: EPrint FetchingLiked :: log_of first
     ++ log_of export
     ++ match result_of export with
        | Exc e => [EPrint (ErrorCreatingPlaylist e)]
        | _ => []
        end).
Proof.
  split; [reflexivity|]. split; [apply fetch_liked_zero|].
  intros fuel s name_line rest page Hin s0 first Hfirst export.
  rewrite (create_playlist_from_liked_log (S fuel) s name_line "0" rest Hin).
  cbv zeta. change (parse_limit (answer "100" "0")) with (Some 0).
  subst export first s0. rewrite fetch_liked_zero. cbv zeta.
  cbn [result_of env_of log_of fst snd]. rewrite Hfirst. reflexivity.
Qed.

(** C10. An answer that int() rejects gives no limit, exactly like the
    answer "all": the run of create_playlist_from_liked is the same as with
    "all" in its place, nothing is rejected; and without a limit the
    pagination goes on as long as the page has a successor, whatever the
    number of songs collected, and the list is not cut.  The answer is
    taken in ASCII, where [py_int] is Python's int(). *)
Theorem invalid_limit_is_unbounded limit_str :
  is_ascii limit_str = true ->
  py_int limit_str = None ->
  parse_limit limit_str = None /\
  (limit_str <> "" ->
   forall fuel s name_line rest,
     stdin s = name_line :: limit_str :: rest ->
     create_playlist_from_liked fuel s =
     create_playlist_from_liked fuel
       {| world := world s; stdin := name_line :: "all" :: rest |}) /\
  (forall fuel page liked s,
     truthy (next page) = true ->
     liked_pages (S fuel) None (Some page) liked s =
     (let* results := rate_limited_request (call (sp_next page)) in
      liked_pages fuel None results (liked ++ page_uris page)) s) /\
  (forall liked, truncate_liked None liked = liked).
Proof.
  intros _ Hint.
  assert (Hnone : parse_limit limit_str = None).
  { unfold parse_limit. rewrite Hint. destruct (negb _); reflexivity. }
  split; [exact Hnone|]. split; [|split].
  - intros Hline fuel s name_line rest Hin.
    rewrite (create_playlist_from_liked_run fuel s name_line limit_str rest Hin).
    rewrite (create_playlist_from_liked_run fuel
               {| world := world s; stdin := name_line :: "all" :: rest |}
               name_line "all" rest eq_refl).
    cbv zeta. cbn [world stdin].
    assert (Hans : answer "100" limit_str = limit_str).
    { unfold answer. rewrite (proj2 (String.eqb_neq _ _) Hline). reflexivity. }
    rewrite Hans, Hnone. reflexivity.
  - intros fuel page liked s Hnext. cbn [liked_pages below_limit].
    rewrite Hnext. reflexivity.
  - reflexivity.
Qed.

(** When the mutation fails terminally the iteration goes on as after a
    success: the track is counted as processed and reported as added (or
    removed), and the error branch is not taken. *)
Lemma failed_mutation_is_counted mode delay i track skipped processed s is_liked others :
  valid_mode mode ->
  let check := rate_limited_request
                 (call (sp_current_user_saved_tracks_contains [uri track])) s in
  let mutate := rate_limited_request (call (mutation mode (uri track))) (env_of check) in
  result_of check = Val (Some (is_liked :: others)) ->
  mutates mode is_liked = true ->
  result_of mutate = Val None ->
  let run := process_track mode delay i track (skipped, processed) s in
  result_of run = Val (skipped, S processed) /\
  failed (log_of run) = 0%nat /\
  In (EPrint (mutated_line mode (display track))) (log_of run).
Proof.
  intros Hmode check mutate Hcheck Hm Hmutate run. subst run.
  rewrite process_track_cases by assumption. cbv zeta.
  fold check. rewrite Hcheck, Hm. fold mutate. rewrite Hmutate.
  cbn [result_of log_of fst snd].
  destruct (rate_limited_request_summary
              (sp_current_user_saved_tracks_contains [uri track]) s) as (_ & Hf1 & _).
  destruct (rate_limited_request_summary (mutation mode (uri track)) (env_of check))
    as (_ & Hf2 & _).
  destruct (iteration_end_summary i delay) as (_ & Hfe & _).
  fold check in Hf1. fold mutate in Hf2.
  split; [reflexivity|]. split.
  - rewrite !failed_app, Hf1, Hf2.
    change (EPrint ?m :: ?l) with ([EPrint m] ++ l). rewrite failed_app, Hfe.
    destruct Hmode as [-> | ->]; reflexivity.
  - rewrite !in_app_iff. right. right. left. reflexivity.
Qed.

End Properties.

(** ** More properties *)

Lemma append_cons c (a b : string) : String c a +:+ b = String c (a +:+ b).
Proof. reflexivity. Qed.

Lemma append_empty (b : string) : "" +:+ b = b.
Proof. reflexivity. Qed.

Lemma strip_prefix_app p s rest :
  strip_prefix p s = Some rest -> s = p +:+ rest.
Proof.
  revert s. induction p as [|a p IH]; intros s H; cbn in *.
  - injection H as ->. reflexivity.
  - destruct s as [|b s]; [discriminate|].
    destruct (Ascii.eqb_spec a b); [|discriminate]. subst. rewrite append_cons. f_equal. apply IH, H.
Qed.

Lemma strip_prefix_refl p rest : strip_prefix p (p +:+ rest) = Some rest.
Proof.
  induction p as [|a p IH]; [reflexivity|].
  rewrite append_cons. cbn. rewrite Ascii.eqb_refl. exact IH.
Qed.

Lemma take_alnum_split s :
  exists post, s = take_alnum s +:+ post /\ stops post = true /\
               all_alnum (take_alnum s) = true.
Proof.
  induction s as [|c s (post & Heq & Hstop & Hall)].
  - exists "". repeat split.
  - cbn [take_alnum]. destruct (is_alnum c) eqn:Hc.
    + exists post. rewrite append_cons, <- Heq. unfold all_alnum in *. cbn.
      rewrite Hc. auto.
    + exists (String c s). cbn. rewrite Hc. repeat split.
Qed.

Lemma take_alnum_app id post :
  all_alnum id = true -> stops post = true -> take_alnum (id +:+ post) = id.
Proof.
  unfold all_alnum. induction id as [|c id IH]; intros Hall Hstop.
  - rewrite append_empty. destruct post as [|c post]; [reflexivity|]. cbn in *.
    destruct (is_alnum c); [discriminate|reflexivity].
  - cbn in Hall. apply andb_prop in Hall as [Hc Hall].
    rewrite append_cons. cbn. rewrite Hc. f_equal. apply IH; assumption.
Qed.

Lemma match_here_sound s id :
  match_here s = Some id ->
  id <> "" /\ all_alnum id = true /\
  exists post, s = "playlist/" +:+ id +:+ post /\ stops post = true.
Proof.
  unfold match_here. destruct (strip_prefix "playlist/" s) as [rest|] eqn:Hp; [|discriminate].
  apply strip_prefix_app in Hp.
  destruct (take_alnum_split rest) as (post & Heq & Hstop & Hall).
  destruct (take_alnum rest) as [|c t] eqn:Ht; [discriminate|].
  intros [= <-]. split; [discriminate|]. split; [exact Hall|].
  exists post. split; [|exact Hstop]. rewrite Hp, Heq. reflexivity.
Qed.

Lemma match_here_complete id post :
  id <> "" -> all_alnum id = true -> stops post = true ->
  match_here ("playlist/" +:+ id +:+ post) = Some id.
Proof.
  intros Hne Hall Hstop. unfold match_here.
  rewrite strip_prefix_refl, take_alnum_app by assumption.
  destruct id; [contradiction|reflexivity].
Qed.

(** X1. What extract_playlist_id returns is never empty, is made of
    letters and digits only, and stands in the link right after the text
    playlist/, up to the first character that is not a letter or digit. *)
Theorem extract_playlist_id_sound link id :
  extract_playlist_id link = Some id ->
  id <> "" /\ all_alnum id = true /\
  exists pre post, link = pre +:+ "playlist/" +:+ id +:+ post /\ stops post = true.
Proof.
  induction link as [|c link IH]; cbn [extract_playlist_id].
  - destruct (match_here "") eqn:H; [|discriminate]. discriminate H.
  - destruct (match_here (String c link)) as [id'|] eqn:Hm.
    + intros [= <-]. destruct (match_here_sound _ _ Hm) as (Hne & Hall & post & Heq & Hstop).
      split; [exact Hne|]. split; [exact Hall|]. exists "", post. split; assumption.
    + intros H. destruct (IH H) as (Hne & Hall & pre & post & Heq & Hstop).
      split; [exact Hne|]. split; [exact Hall|].
      exists (String c pre), post. split; [|exact Hstop].
      rewrite append_cons. f_equal. exact Heq.
Qed.

(** X2. extract_playlist_id finds nothing exactly when the link has no
    place where playlist/ is followed by a letter or a digit. *)
Theorem extract_playlist_id_none link :
  extract_playlist_id link = None <->
  (forall pre c rest,
     link = pre +:+ "playlist/" +:+ String c rest -> is_alnum c = false).
Proof.
  split.
  - induction link as [|c0 link IH]; intros Hnone pre c rest Heq.
    + destruct pre; discriminate.
    + cbn [extract_playlist_id] in Hnone.
      destruct (match_here (String c0 link)) as [id|] eqn:Hm; [discriminate|].
      destruct pre as [|p pre].
      * rewrite append_empty in Heq. rewrite Heq in Hm. unfold match_here in Hm.
        rewrite (strip_prefix_refl "playlist/" (String c rest)) in Hm.
        cbn [take_alnum] in Hm. destruct (is_alnum c); [discriminate|reflexivity].
      * rewrite append_cons in Heq. injection Heq as -> Heq.
        exact (IH Hnone pre c rest Heq).
  - induction link as [|c0 link IH]; intros Hall; [reflexivity|].
    cbn [extract_playlist_id].
    destruct (match_here (String c0 link)) as [id|] eqn:Hm.
    + destruct (match_here_sound _ _ Hm) as (Hne & Halnum & post & Heq & _).
      destruct id as [|c id]; [contradiction|].
      unfold all_alnum in Halnum. cbn in Halnum. apply andb_prop in Halnum as [Hc _].
      specialize (Hall "" c (id +:+ post) Heq). congruence.
    + apply IH. intros pre c rest Heq. apply (Hall (String c0 pre) c rest).
      rewrite append_cons. f_equal. exact Heq.
Qed.

Lemma append_assoc (a b c : string) : (a +:+ b) +:+ c = a +:+ (b +:+ c).
Proof.
  induction a as [|x a IH]; [reflexivity|]. rewrite !append_cons. f_equal. exact IH.
Qed.

Lemma append_length (a b : string) :
  String.length (a +:+ b) = (String.length a + String.length b)%nat.
Proof.
  induction a as [|x a IH]; [reflexivity|]. rewrite append_cons. cbn. f_equal. exact IH.
Qed.

Lemma strip_prefix_extend p : forall s tail,
  match strip_prefix p s with
  | Some rest => strip_prefix p (s +:+ tail) = Some (rest +:+ tail)
  | None => (String.length p <= String.length s)%nat -> strip_prefix p (s +:+ tail) = None
  end.
Proof.
  induction p as [|a p IH]; intros s tail; [reflexivity|].
  destruct s as [|b s]; [cbn; intros H; exfalso; lia|].
  rewrite append_cons. cbn [strip_prefix String.length].
  destruct (Ascii.eqb a b); [|reflexivity].
  specialize (IH s tail). destruct (strip_prefix p s); [exact IH|].
  intros Hlen. apply IH. lia.
Qed.

(** A place where the pattern does not match, with at least one character
    after the nine of [playlist/], does not match either when the text
    goes on. *)
Lemma match_here_extend s tail :
  match_here s = None -> (9 < String.length s)%nat -> match_here (s +:+ tail) = None.
Proof.
  unfold match_here. intros Hnone Hlen.
  pose proof (strip_prefix_extend "playlist/" s tail) as Hext.
  destruct (strip_prefix "playlist/" s) as [rest|] eqn:Hp.
  - rewrite Hext. apply strip_prefix_app in Hp.
    destruct rest as [|c rest].
    + subst s. vm_compute in Hlen. lia.
    + rewrite append_cons. cbn [take_alnum] in *.
      destruct (is_alnum c); [discriminate|reflexivity].
  - rewrite Hext; [reflexivity|]. cbn. lia.
Qed.

Lemma extract_playlist_id_unfold link :
  extract_playlist_id link =
  match match_here link with
  | Some id => Some id
  | None =>
      match link with
      | String _ rest => extract_playlist_id rest
      | EmptyString => None
      end
  end.
Proof. destruct link; reflexivity. Qed.

(** X3. A link made of any text in which the pattern does not match, then
    playlist/, an identifier of letters and digits, and a rest that does
    not go on with a letter or digit (a query string, a slash, nothing)
    gives back exactly the identifier. *)
Theorem extract_playlist_id_round_trip pre id post :
  extract_playlist_id (pre +:+ "playlist/") = None ->
  id <> "" -> all_alnum id = true -> stops post = true ->
  extract_playlist_id (pre +:+ "playlist/" +:+ id +:+ post) = Some id.
Proof.
  intros Hpre Hne Hall Hstop. induction pre as [|c pre IH].
  - rewrite append_empty, extract_playlist_id_unfold, match_here_complete by assumption.
    reflexivity.
  - rewrite append_cons in Hpre. cbn [extract_playlist_id] in Hpre.
    destruct (match_here (String c (pre +:+ "playlist/"))) eqn:Hm; [discriminate|].
    rewrite append_cons. cbn [extract_playlist_id].
    replace (String c (pre +:+ "playlist/" +:+ id +:+ post))
      with (String c (pre +:+ "playlist/") +:+ (id +:+ post))
      by (rewrite (append_cons c (pre +:+ "playlist/") (id +:+ post)),
                  (append_assoc pre "playlist/" (id +:+ post)); reflexivity).
    rewrite match_here_extend.
    + apply IH, Hpre.
    + exact Hm.
    + cbn [String.length]. rewrite append_length. cbn. lia.
Qed.

(** X4. clear_cache deletes nothing unless the answer to its question was
    yes: when it was no, or when the input ended, both paths are as before. *)
Theorem clear_cache_needs_yes files lines res files' rest' log :
  clear_cache files lines = (res, files', rest', log) ->
  files' <> files ->
  exists rest, read_confirm lines = Some (true, rest).
Proof.
  unfold clear_cache. destruct (read_confirm lines) as [[[|] rest]|].
  - intros _ _. eauto.
  - intros [= _ <- _ _] H. contradiction.
  - intros [= _ <- _ _] H. contradiction.
Qed.

(** X5. After a confirmed clear_cache that returns, neither the login
    cache nor the .env file exists, and the value returned tells whether
    one of them existed before. *)
Theorem clear_cache_confirmed files lines rest deleted files' rest' log :
  read_confirm lines = Some (true, rest) ->
  clear_cache files lines = (Val deleted, files', rest', log) ->
  files' = {| cache_path := Absent; env_file := Absent |} /\
  deleted = exists_path (cache_path files) || exists_path (env_file files) /\
  (In NothingToDelete log <-> deleted = false).
Proof.
  intros Hyes. unfold clear_cache. rewrite Hyes.
  destruct files as [[| |] [| |]]; cbn; intros [= <- <- <- <-];
    (split; [reflexivity|]); (split; [reflexivity|]); cbn; intuition discriminate.
Qed.

(** X6. Once clear_cache has run, a second confirmed run finds nothing to
    delete: it returns False and changes nothing. *)
Theorem clear_cache_twice files lines rest deleted files1 rest1 log1 rest2 :
  read_confirm lines = Some (true, rest) ->
  clear_cache files lines = (Val deleted, files1, rest1, log1) ->
  read_confirm rest1 = Some (true, rest2) ->
  clear_cache files1 rest1 = (Val false, files1, rest2, [AskDelete; NothingToDelete]).
Proof.
  intros Hyes Hrun Hyes2.
  assert (Hfiles : files1 = {| cache_path := Absent; env_file := Absent |}).
  { revert Hrun. unfold clear_cache. rewrite Hyes.
    destruct files as [[| |] [| |]]; cbn; congruence. }
  subst files1. unfold clear_cache. rewrite Hyes2. reflexivity.
Qed.

Section MoreProperties.

Context {W : Type} {remote : Remote W}.

Implicit Types (s : Env W) (log : list Event) (r : Request).

Lemma core_fmap (log : list Event) : core (Core <$> log) = log.
Proof. induction log as [|e log IH]; [reflexivity|]. cbn. f_equal. exact IH. Qed.

Lemma lower_length (t : string) : String.length (lower t) = String.length t.
Proof. induction t as [|c t IH]; [reflexivity|]. cbn. f_equal. exact IH. Qed.

Lemma extract_playlist_id_long link id :
  extract_playlist_id link = Some id -> (9 < String.length link)%nat.
Proof.
  induction link as [|c link IH]; cbn [extract_playlist_id].
  - destruct (match_here "") eqn:H; discriminate.
  - destruct (match_here (String c link)) as [id'|] eqn:Hm.
    + intros _. destruct (match_here_sound _ _ Hm) as (Hne & _ & post & -> & _).
      rewrite !append_length. destruct id'; [contradiction|]. cbn. lia.
    + intros H. specialize (IH H). cbn. lia.
Qed.

(** A link with a playlist identifier is not one of the words that go
    back to the dashboard. *)
Lemma link_is_not_back link id :
  extract_playlist_id link = Some id ->
  String.eqb (lower link) "b" || String.eqb (lower link) "back" = false.
Proof.
  intros Hid. apply extract_playlist_id_long in Hid.
  rewrite <- lower_length in Hid.
  destruct (String.eqb_spec (lower link) "b") as [E|_];
    [rewrite E in Hid; cbn in Hid; lia|].
  destruct (String.eqb_spec (lower link) "back") as [E|_];
    [rewrite E in Hid; cbn in Hid; lia|].
  reflexivity.
Qed.





Lemma pages_returned_app log1 log2 :
  pages_returned (log1 ++ log2) = pages_returned log1 ++ pages_returned log2.
Proof. unfold pages_returned. rewrite calls_app. apply omap_app. Qed.

Lemma rate_limited_request_pages r s :
  pages_returned (log_of (rate_limited_request (call r) s))
  = page_gained r (result_of (rate_limited_request (call r) s)).
Proof.
  destruct (rate_limited_request_calls r s) as (fails & _ & Hcalls & _).
  unfold pages_returned, page_gained. rewrite Hcalls, omap_app.
  assert (Hf : omap page_of ((fun e => (r, Raised e)) <$> fails) = []).
  { clear. induction fails as [|e fails IH]; [reflexivity|exact IH]. }
  rewrite Hf. reflexivity.
Qed.


(** What the loop returns: the tracks it had, those of the page in hand
    and those of the pages it was given afterwards. *)
Lemma playlist_pages_collects fuel : forall results tracks s collected,
  result_of (playlist_pages fuel results tracks s) = Val collected ->
  collected =
    tracks
    ++ flat_map page_tracks
         (match results with Some p => [p] | None => [] end
          ++ pages_returned (log_of (playlist_pages fuel results tracks s))).
Proof.
  induction fuel as [|fuel IH]; intros results tracks s collected.
  - destruct results; cbn; [discriminate|]. intros [= <-]. symmetry. apply app_nil_r.
  - destruct results as [page|]; cbn [playlist_pages].
    2: { cbn. intros [= <-]. symmetry. apply app_nil_r. }
    destruct (truthy (next page)).
    2: { cbn. intros [= <-]. rewrite app_nil_r. reflexivity. }
    rewrite bind_unfold.
    pose proof (rate_limited_request_pages (sp_next page) s) as Hpages.
    destruct (result_of (rate_limited_request (call (sp_next page)) s))
      as [results'|e|] eqn:Hres; try discriminate.
    cbn [result_of log_of fst snd]. intros Hrec.
    apply IH in Hrec. rewrite Hrec, pages_returned_app, Hpages.
    cbn [flat_map app]. rewrite <- !app_assoc. f_equal.
    rewrite !flat_map_app. f_equal.
    destruct results' as [page'|]; reflexivity.
Qed.

Lemma omap_cons {A B} (f : A -> option B) (x : A) (l : list A) :
  omap f (x :: l) = match f x with Some y => y :: omap f l | None => omap f l end.
Proof. reflexivity. Qed.

Lemma page_tracks_well_formed page : Forall well_formed (page_tracks page).
Proof.
  unfold page_tracks. induction (items page) as [|item its IH]; [constructor|].
  rewrite omap_cons. unfold track_of_item at 1.
  destruct (item_track item) as [track|]; [|exact IH].
  destruct (raw_uri track) as [u|]; [|exact IH].
  cbn [truthy]. destruct (String.eqb_spec u "") as [->|Hu]; cbn [negb]; [exact IH|].
  constructor; [|exact IH]. split; cbn; [exact Hu|].
  destruct (String.eqb_spec (join_comma (raw_artists track)) ""); [discriminate|assumption].
Qed.

Lemma page_tracks_uris_eq page : uri <$> page_tracks page = page_uris page.
Proof.
  unfold page_tracks, page_uris. induction (items page) as [|item its IH]; [reflexivity|].
  rewrite !omap_cons. unfold track_of_item at 1, uri_of_item at 1.
  destruct (item_track item) as [track|]; [|exact IH].
  destruct (raw_uri track) as [u|]; [|exact IH].
  destruct (truthy (Some u)); [|exact IH].
  cbn. f_equal. exact IH.
Qed.

Lemma get_playlist_info_and_tracks_unfold fuel id s :
  get_playlist_info_and_tracks fuel id s =
  let body := load_playlist fuel id s in
  match result_of body with
  | Exc e =>
      (Val (None, []), env_of body, log_of body ++ [EPrint (FailedToLoadPlaylist e)])
  | res => (res, env_of body, log_of body)
  end.
Proof.
  unfold get_playlist_info_and_tracks. rewrite try_except_unfold.
  fold (load_playlist fuel id). cbv zeta.
  destruct (result_of (load_playlist fuel id s)); reflexivity.
Qed.


Lemma load_playlist_collects fuel id s info tracks :
  result_of (load_playlist fuel id s) = Val (info, tracks) ->
  tracks = flat_map page_tracks (pages_returned (log_of (load_playlist fuel id s))).
Proof.
  unfold load_playlist. rewrite bind_unfold.
  pose proof (rate_limited_request_pages (sp_playlist id) s) as Hmeta.
  destruct (result_of (rate_limited_request (call (sp_playlist id)) s))
    as [data|e|] eqn:Hdata; try discriminate.
  cbn [result_of env_of log_of fst snd]. rewrite bind_unfold.
  set (s1 := env_of (rate_limited_request (call (sp_playlist id)) s)).
  pose proof (rate_limited_request_pages (sp_playlist_items id) s1) as Hfirst.
  destruct (result_of (rate_limited_request (call (sp_playlist_items id)) s1))
    as [results|e|] eqn:Hres; try discriminate.
  cbn [result_of env_of log_of fst snd]. rewrite bind_unfold.
  set (s2 := env_of (rate_limited_request (call (sp_playlist_items id)) s1)).
  destruct (result_of (playlist_pages fuel results [] s2)) as [collected|e|] eqn:Hloop;
    try discriminate.
  cbn [result_of env_of log_of fst snd ret]. intros [= _ <-].
  apply playlist_pages_collects in Hloop. rewrite Hloop.
  rewrite app_nil_r, !pages_returned_app, Hmeta, Hfirst. cbn [app].
  assert (Hm : page_gained (sp_playlist id) (Val data) = []) by (destruct data; reflexivity).
  rewrite Hm. cbn [app]. rewrite !flat_map_app. f_equal.
  destruct results; reflexivity.
Qed.




(** X10. Every track get_playlist_info_and_tracks returns has a uri that is
    not empty and an artist that is not empty. *)
Theorem get_playlist_info_and_tracks_well_formed fuel id s info tracks :
  result_of (get_playlist_info_and_tracks fuel id s) = Val (info, tracks) ->
  Forall well_formed tracks.
Proof.
  rewrite get_playlist_info_and_tracks_unfold. cbv zeta.
  destruct (result_of (load_playlist fuel id s)) as [v|e0|] eqn:Hres;
    cbn [result_of fst].
  - intros [= ->]. rewrite (load_playlist_collects fuel id s info tracks Hres).
    induction (pages_returned _) as [|page pages IH]; [constructor|].
    cbn [flat_map]. apply Forall_app. split; [apply page_tracks_well_formed|exact IH].
  - intros [= _ <-]. constructor.
  - discriminate.
Qed.

(** *** More on process_songs *)

Lemma advances_app log1 log2 : advances (log1 ++ log2) = advances log1 ++ advances log2.
Proof. apply omap_app. Qed.

Lemma advanced_app log1 log2 : advanced (log1 ++ log2) = (advanced log1 + advanced log2)%nat.
Proof. unfold advanced. rewrite advances_app. apply list_sum_app. Qed.

Lemma retry_events_no_advance r log : Forall (retry_event r) log -> advanced log = 0%nat.
Proof.
  unfold advanced. induction 1 as [|e log He _ IH]; [reflexivity|].
  destruct e as [r' out|b j|m|n|i]; cbn in *; try exact IH; contradiction.
Qed.

Lemma rate_limited_request_count r s :
  (1 <= length (calls (log_of (rate_limited_request (call r) s))) <= 5)%nat.
Proof.
  destruct (rate_limited_request_calls r s) as (fails & _ & -> & Hn).
  rewrite length_app, length_fmap.
  destruct (result_of (rate_limited_request (call r) s)) as [[v|]|e|];
    cbn in Hn |- *; lia.
Qed.

Lemma iteration_end_advances i delay : advanced (iteration_end i delay) = 1%nat.
Proof. unfold iteration_end. destruct (5 <? i)%nat; reflexivity. Qed.

Lemma iteration_error_tail d e delay :
  calls (iteration_error d e delay) = [] /\
  advanced (iteration_error d e delay) = 0%nat /\
  failed (iteration_error d e delay) = 1%nat.
Proof. repeat split. Qed.

Lemma iteration_line_tail mode d i delay (line : string -> string -> Msg) :
  valid_mode mode ->
  line = mutated_line \/ line = skipped_line ->
  calls (EPrint (line mode d) :: iteration_end i delay) = [] /\
  advanced (EPrint (line mode d) :: iteration_end i delay) = 1%nat /\
  failed (EPrint (line mode d) :: iteration_end i delay) = 0%nat.
Proof.
  intros Hmode Hline. destruct (iteration_end_summary i delay) as (_ & Hfe & Hce & _).
  pose proof (iteration_end_advances i delay) as Hae.
  change (EPrint ?m :: ?l) with ([EPrint m] ++ l).
  rewrite calls_app, advanced_app, failed_app, Hce, Hae, Hfe.
  destruct Hmode as [-> | ->], Hline as [-> | ->]; repeat split.
Qed.

Lemma rate_limited_request_advances r s :
  advanced (log_of (rate_limited_request (call r) s)) = 0%nat.
Proof.
  apply (retry_events_no_advance r).
  apply (retry_loop_events r (Z.to_nat MAX_RETRIES) 0 s).
Qed.

Lemma process_track_calls mode delay i track counts s :
  valid_mode mode ->
  iteration_calls mode track (process_track mode delay i track counts s).
Proof.
  intros Hmode. destruct counts as [skipped processed].
  rewrite process_track_cases by assumption. cbv zeta.
  destruct (rate_limited_request_summary
              (sp_current_user_saved_tracks_contains [uri track]) s)
    as (_ & Hf1 & Hret1 & Ht1 & _).
  pose proof (rate_limited_request_count
                (sp_current_user_saved_tracks_contains [uri track]) s) as Hn1.
  pose proof (rate_limited_request_advances
                (sp_current_user_saved_tracks_contains [uri track]) s) as Ha1.
  set (check := rate_limited_request _ s) in *.
  assert (Hc1 : Forall (concerns mode track) (calls (log_of check))).
  { eapply Forall_impl; [exact Ht1|]. intros c Hc. left. exact Hc. }
  assert (Herr : forall e,
    iteration_calls mode track
      (Val (skipped, processed), env_of check,
       log_of check ++ iteration_error (display track) e delay)).
  { intros e.
    destruct (iteration_error_tail (display track) e delay) as (Hct & Hat & Hft).
    split; cbn [log_of snd];
      rewrite ?calls_app, ?advanced_app, ?failed_app, ?Hct, ?Hat, ?Hft, ?Ha1, ?Hf1,
        ?app_nil_r.
    - exact Hc1.
    - lia.
    - reflexivity. }
  destruct (result_of check) as [[[|is_liked l]|]|e|] eqn:Hres; try apply Herr;
    [|contradiction].
  destruct (mutates mode is_liked) eqn:Hm.
  - destruct (rate_limited_request_summary (mutation mode (uri track)) (env_of check))
      as (_ & Hf2 & Hret2 & Ht2 & _).
    pose proof (rate_limited_request_count (mutation mode (uri track)) (env_of check))
      as Hn2.
    pose proof (rate_limited_request_advances (mutation mode (uri track)) (env_of check))
      as Ha2.
    set (mutate := rate_limited_request _ (env_of check)) in *.
    assert (Hc2 : Forall (concerns mode track) (calls (log_of mutate))).
    { eapply Forall_impl; [exact Ht2|]. intros c Hc. right. exact Hc. }
    destruct (result_of mutate) as [a|e|] eqn:Hres2; [| |contradiction].
    + destruct (iteration_line_tail mode (display track) i delay mutated_line Hmode)
        as (Hct & Hat & Hft); [left; reflexivity|].
      split; cbn [log_of snd];
        rewrite ?calls_app, ?advanced_app, ?failed_app, ?Hct, ?Hat, ?Hft, ?Ha1, ?Ha2,
          ?Hf1, ?Hf2, ?app_nil_r.
      * apply Forall_app. split; assumption.
      * rewrite length_app. lia.
      * reflexivity.
    + destruct (iteration_error_tail (display track) e delay) as (Hct & Hat & Hft).
      split; cbn [log_of snd];
        rewrite ?calls_app, ?advanced_app, ?failed_app, ?Hct, ?Hat, ?Hft, ?Ha1, ?Ha2,
          ?Hf1, ?Hf2, ?app_nil_r.
      * apply Forall_app. split; assumption.
      * rewrite length_app. lia.
      * reflexivity.
  - destruct (iteration_line_tail mode (display track) i delay skipped_line Hmode)
      as (Hct & Hat & Hft); [right; reflexivity|].
    split; cbn [log_of snd];
      rewrite ?calls_app, ?advanced_app, ?failed_app, ?Hct, ?Hat, ?Hft, ?Ha1, ?Hf1,
        ?app_nil_r.
    + exact Hc1.
    + lia.
    + reflexivity.
Qed.

Lemma setup_events_no_advance log : Forall setup_event log -> advanced log = 0%nat.
Proof.
  unfold advanced. induction 1 as [|e log He _ IH]; [reflexivity|].
  destruct e as [r' out|b j|m|n|i]; cbn in *; try exact IH; contradiction.
Qed.

Lemma songs_loop_calls mode delay :
  valid_mode mode ->
  forall todo i counts s,
    let run := songs_loop mode delay i todo counts s in
    Forall (within mode todo) (calls (log_of run)) /\
    (length todo <= length (calls (log_of run)) <= 10 * length todo)%nat /\
    (advanced (log_of run) + failed (log_of run) = length todo)%nat.
Proof.
  intros Hmode. induction todo as [|track todo IH]; intros i counts s run; subst run.
  - cbn. repeat split; try lia. constructor.
  - cbn [songs_loop]. rewrite bind_unfold.
    destruct (process_track_ok mode delay i track counts s Hmode)
      as [(counts1 & Hres & _) _ _ _].
    destruct (process_track_calls mode delay i track counts s Hmode)
      as [Hc Hn Hp].
    rewrite Hres. cbn [result_of env_of log_of fst snd].
    specialize (IH (S i) counts1 (env_of (process_track mode delay i track counts s))).
    cbv zeta in IH. destruct IH as (Hc2 & Hn2 & Hp2).
    rewrite calls_app, advanced_app, failed_app, !length_app.
    repeat split.
    + apply Forall_app. split.
      * eapply Forall_impl; [exact Hc|]. intros c H. exists track. split; [left; reflexivity|exact H].
      * eapply Forall_impl; [exact Hc2|]. intros c (t & Hin & H).
        exists t. split; [right; exact Hin|exact H].
    + cbn [length]. lia.
    + cbn [length]. lia.
    + cbn [length]. lia.
Qed.

Lemma within_rev mode tracks c : within mode (rev tracks) c -> within mode tracks c.
Proof.
  intros (t & Hin & H). exists t. split; [|exact H]. apply in_rev. exact Hin.
Qed.

Lemma process_songs_calls tracks mode s :
  valid_mode mode ->
  let log := log_of (process_songs tracks mode s) in
  Forall (within mode tracks) (calls log) /\
  (completed log ->
     (length tracks <= length (calls log) <= 10 * length tracks)%nat /\
     (advanced log + failed log = length tracks)%nat) /\
  (~ completed log -> calls log = [] /\ advanced log = 0%nat).
Proof.
  intros Hmode. cbv zeta.
  destruct (process_songs_cases tracks mode s)
    as [Hsetup | (delay & s1 & setup & counts & Hsetup & Hres & ->)].
  - destruct (setup_events_summary _ Hsetup) as (_ & _ & Hcalls & Hnot & _).
    rewrite Hcalls. split; [constructor|split].
    + intros Hdone. contradiction.
    + intros _. split; [reflexivity|].
      apply setup_events_no_advance. exact Hsetup.
  - destruct (setup_events_summary _ Hsetup) as (_ & Hf & Hcalls & _).
    pose proof (setup_events_no_advance _ Hsetup) as Hadv.
    destruct (songs_loop_calls mode delay Hmode (rev tracks) 1%nat (0%nat, 0%nat) s1)
      as (Hc & Hn & Hp).
    rewrite length_rev in Hn, Hp.
    unfold finished. cbn [log_of snd].
    set (tail := [EPrint Completed; _; _]).
    assert (Ht : calls tail = [] /\ advanced tail = 0%nat /\ failed tail = 0%nat)
      by (repeat split).
    destruct Ht as (Hct & Hat & Hft).
    rewrite !calls_app, !advanced_app, !failed_app, Hcalls, Hadv, Hf, Hct, Hat, Hft.
    cbn [app]. rewrite !app_nil_r. split; [|split].
    + eapply Forall_impl; [exact Hc|]. intros c. apply within_rev.
    + intros _. split; lia.
    + intros Hnot. exfalso. apply Hnot. unfold completed.
      apply in_or_app. right. apply in_or_app. right. left. reflexivity.
Qed.

Lemma result_of_bind {A B} (m : M W A) (f : A -> M W B) s :
  result_of (bind m f s) =
  match result_of (m s) with
  | Val a => result_of (f a (env_of (m s)))
  | Exc e => Exc e
  | OutOfFuel => OutOfFuel
  end.
Proof. rewrite bind_unfold. destruct (result_of (m s)); reflexivity. Qed.

Ltac log_next :=
  cbv beta; rewrite log_of_bind;
  cbn [print emit ret raise subscript result_of env_of log_of fst snd app negb].

(** X11. Every call process_songs makes is about a track of its list: the
    membership check of that track's uri or, in add mode, the add of it,
    in remove mode, the delete of it.  Adding never deletes, removing
    never adds, and no other track is touched. *)
Theorem process_songs_touches_only_its_tracks tracks mode s c :
  valid_mode mode ->
  In c (calls (log_of (process_songs tracks mode s))) ->
  exists t, In t tracks /\
    (fst c = sp_current_user_saved_tracks_contains [uri t] \/
     (mode = "add" /\ fst c = sp_current_user_saved_tracks_add [uri t]) \/
     (mode = "remove" /\ fst c = sp_current_user_saved_tracks_delete [uri t])).
Proof.
  intros Hmode Hin.
  destruct (process_songs_calls tracks mode s Hmode) as (Hall & _).
  rewrite List.Forall_forall in Hall. destruct (Hall c Hin) as (t & Ht & Hc).
  exists t. split; [exact Ht|].
  destruct Hc as [Hc | Hc]; [left; exact Hc|right].
  destruct Hmode as [-> | ->]; [left | right]; split; auto.
Qed.

(** X12. A run of process_songs that went through its loop made at least
    one call per track and at most ten: up to five attempts of the check
    and up to five of the mutation. *)
Theorem process_songs_call_budget tracks mode s :
  valid_mode mode ->
  completed (log_of (process_songs tracks mode s)) ->
  (length tracks <= length (calls (log_of (process_songs tracks mode s)))
   <= 10 * length tracks)%nat.
Proof.
  intros Hmode Hdone.
  destruct (process_songs_calls tracks mode s Hmode) as (_ & Hn & _).
  apply Hn. exact Hdone.
Qed.

(** X13. The progress bar advances by one for each track that did not
    fail: after the loop it stands at the number of tracks minus the
    number of "Error on" lines, so it is full only when no track failed. *)
Theorem process_songs_progress tracks mode s :
  valid_mode mode ->
  completed (log_of (process_songs tracks mode s)) ->
  (advanced (log_of (process_songs tracks mode s))
   + failed (log_of (process_songs tracks mode s)) = length tracks)%nat.
Proof.
  intros Hmode Hdone.
  destruct (process_songs_calls tracks mode s Hmode) as (_ & Hn & _).
  apply Hn. exact Hdone.
Qed.

Lemma choose_delay_intro total s delay :
  result_of (choose_delay total s) = Val (Some delay) ->
  log_of (choose_delay total s) = [EPrint (SafetyProtection total)] \/
  log_of (choose_delay total s) = [EPrint ChooseSpeedMode].
Proof.
  unfold choose_delay, bind, print, emit, Prompt_ask, ret, raise.
  destruct (SAFE_THRESHOLD <? total)%nat; [left; reflexivity|].
  cbn [fst snd]. destruct (read_answer _ _ (stdin s)) as [[answer rest]|];
    [|discriminate].
  destruct (String.eqb answer "4"); [discriminate|].
  destruct (SPEED_KEYS !! answer) as [key|]; [|discriminate].
  destruct (SPEED_MODES !! key); [right; reflexivity|discriminate].
Qed.

(** The part of process_songs after the delay is chosen (lines 291-360). *)
Lemma process_songs_confirmed tracks mode delay s1 :
  let run :=
    (print (Summary mode (length tracks) delay) >>
     let* confirmed := Confirm_ask in
     if negb confirmed then print Cancelled
     else
       print (Starting mode) >>
       let* counts := songs_loop mode delay 1 (rev tracks) (0%nat, 0%nat) in
       print Completed >>
       print (ProcessedCount (snd counts)) >>
       print (SkippedCount (fst counts))) s1 in
  log_of run = [EPrint (Summary mode (length tracks) delay)] \/
  log_of run = [EPrint (Summary mode (length tracks) delay); EPrint Cancelled] \/
  exists loop counts,
    Forall loop_event loop /\
    log_of run =
    EPrint (Summary mode (length tracks) delay) :: EPrint (Starting mode) :: loop
    ++ [EPrint Completed; EPrint (ProcessedCount (snd counts));
        EPrint (SkippedCount (fst counts))].
Proof.
  cbv zeta.
  match goal with |- log_of ?R = _ \/ _ => remember R as run eqn:Hrun end.
  unfold bind at 1 2, print at 1, emit at 1, Confirm_ask in Hrun.
  destruct (read_confirm (stdin s1)) as [[[|] rest]|]; cbn [negb] in Hrun.
  - right. right.
    destruct (songs_loop_guarded mode delay (rev tracks) 1%nat (0%nat, 0%nat)
                {| world := world s1; stdin := rest |} None)
      as ((counts & Hres) & _ & Hev).
    exists (log_of (songs_loop mode delay 1 (rev tracks) (0%nat, 0%nat)
                      {| world := world s1; stdin := rest |})), counts.
    split; [exact Hev|].
    unfold bind, print, emit, result_of, env_of, log_of in *.
    destruct (songs_loop mode delay 1 (rev tracks) (0%nat, 0%nat) _) as [[res s2] l2].
    cbn in Hres. subst res run. cbn. rewrite <- ?app_assoc. reflexivity.
  - right. left. subst run. reflexivity.
  - left. subst run. reflexivity.
Qed.

(** The log of a run of process_songs: the lines before the loop only,
    without the line that starts it, or the whole of a completed run. *)
Lemma process_songs_shape tracks mode s :
  Forall setup_event (log_of (process_songs tracks mode s)) /\
    ~ In (EPrint (Starting mode)) (log_of (process_songs tracks mode s)) \/
  exists intro delay loop,
    (intro = EPrint (SafetyProtection (length tracks)) \/ intro = EPrint ChooseSpeedMode) /\
    Forall loop_event loop /\
    exists counts,
      log_of (process_songs tracks mode s) =
      [intro; EPrint (Summary mode (length tracks) delay)]
      ++ EPrint (Starting mode) :: loop
      ++ [EPrint Completed; EPrint (ProcessedCount (snd counts));
          EPrint (SkippedCount (fst counts))].
Proof.
  unfold process_songs.
  destruct (length tracks =? 0)%nat.
  { left. split; [repeat constructor|]. intros [H|[]]. discriminate. }
  rewrite log_of_bind.
  pose proof (choose_delay_events (length tracks) s) as Hsetup.
  pose proof (choose_delay_intro (length tracks) s) as Hintro.
  assert (Hquiet : ~ In (EPrint (Starting mode)) (log_of (choose_delay (length tracks) s))).
  { intros Hin. rewrite List.Forall_forall in Hsetup. apply Hsetup in Hin as Hev.
    clear -Hin. revert Hin.
    unfold choose_delay, bind, print, emit, Prompt_ask, ret, raise.
    destruct (SAFE_THRESHOLD <? length tracks)%nat; [intros [H|[]]; discriminate|].
    cbn [fst snd]. destruct (read_answer _ _ (stdin s)) as [[answer rest]|];
      [|intros [H|[]]; discriminate].
    destruct (String.eqb answer "4"); [intros [H|[H|[]]]; discriminate|].
    destruct (SPEED_KEYS !! answer) as [key|]; [|intros [H|[]]; discriminate].
    destruct (SPEED_MODES !! key); intros [H|[]]; discriminate. }
  destruct (result_of (choose_delay (length tracks) s)) as [[delay|]|e|] eqn:Hres.
  2: { left. cbn [ret log_of snd]. rewrite app_nil_r. split; assumption. }
  2: { left. rewrite app_nil_r. split; assumption. }
  2: { left. rewrite app_nil_r. split; assumption. }
  destruct (process_songs_confirmed tracks mode delay
              (env_of (choose_delay (length tracks) s)))
    as [Hrun | [Hrun | (loop & counts & Hloop & Hrun)]];
    cbv zeta in Hrun; rewrite Hrun.
  - left. split.
    + apply Forall_app. split; [exact Hsetup|repeat constructor].
    + intros Hin. apply in_app_or in Hin as [Hin|[Hin|[]]];
        [exact (Hquiet Hin)|discriminate].
  - left. split.
    + apply Forall_app. split; [exact Hsetup|repeat constructor].
    + intros Hin. apply in_app_or in Hin as [Hin|[Hin|[Hin|[]]]];
        [exact (Hquiet Hin)|discriminate|discriminate].
  - right.
    destruct (Hintro delay eq_refl) as [Hlog | Hlog]; rewrite Hlog.
    + exists (EPrint (SafetyProtection (length tracks))), delay, loop.
      split; [left; reflexivity|]. split; [exact Hloop|]. exists counts. reflexivity.
    + exists (EPrint ChooseSpeedMode), delay, loop.
      split; [right; reflexivity|]. split; [exact Hloop|]. exists counts. reflexivity.
Qed.

Lemma app_split_before {T} (x y : T) : forall (A B pre post : list T),
  pre ++ x :: post = A ++ y :: B -> ~ In x A -> x <> y -> In y pre.
Proof.
  induction A as [|a A IH]; intros B pre post Heq Hnot Hne.
  - destruct pre as [|p pre]; cbn in Heq; injection Heq as Hhead _.
    + contradiction.
    + left. exact Hhead.
  - destruct pre as [|p pre]; cbn in Heq; injection Heq as Hhead Htail.
    + exfalso. apply Hnot. left. symmetry. exact Hhead.
    + right. apply (IH B pre post Htail); [|exact Hne].
      intros Hin. apply Hnot. right. exact Hin.
Qed.

(** X14. No remote call of process_songs comes before the line that
    starts the loop ("Adding songs..." or "Removing songs..."): in the
    log that line stands before every call.  And a run that printed
    "No tracks to process", "Returning to dashboard..." or "Cancelled."
    has made no call at all.  This holds in any mode. *)
Theorem process_songs_cancelled_is_idle tracks mode s :
  let log := log_of (process_songs tracks mode s) in
  (forall pre r out post,
     log = pre ++ ECall r out :: post -> In (EPrint (Starting mode)) pre) /\
  (In (EPrint NoTracksToProcess) log \/ In (EPrint ReturningToDashboard) log \/
   In (EPrint Cancelled) log ->
   calls log = []).
Proof.
  cbv zeta.
  destruct (process_songs_shape tracks mode s)
    as [[Hsetup Hquiet] | (intro & delay & loop & Hintro & Hloop & counts & ->)].
  - split.
    + intros pre r out post Heq. exfalso.
      rewrite Heq in Hsetup. apply Forall_app in Hsetup as [_ Hsetup].
      apply Forall_cons in Hsetup as [Hbad _]. exact Hbad.
    + intros _. apply setup_events_summary in Hsetup as (_ & _ & Hcalls & _).
      exact Hcalls.
  - split.
    + intros pre r out post Heq.
      apply (app_split_before (ECall r out) (EPrint (Starting mode))
               [intro; EPrint (Summary mode (length tracks) delay)] _ pre post
               (eq_sym Heq));
        [|discriminate].
      intros [H|[H|[]]]; [|discriminate].
      destruct Hintro as [-> | ->]; discriminate.
    + intros Hin. exfalso.
      assert (Hno : forall m, In (EPrint m) loop -> loop_event (EPrint m)).
      { intros m Hm. rewrite List.Forall_forall in Hloop. exact (Hloop _ Hm). }
      assert (Hcase : forall m,
                m = NoTracksToProcess \/ m = ReturningToDashboard \/ m = Cancelled ->
                ~ In (EPrint m)
                    ([intro; EPrint (Summary mode (length tracks) delay)]
                     ++ EPrint (Starting mode) :: loop
                     ++ [EPrint Completed; EPrint (ProcessedCount (snd counts));
                         EPrint (SkippedCount (fst counts))])).
      { intros m Hm H. apply in_app_or in H as [H|H].
        - destruct H as [H|[H|[]]].
          + destruct Hintro as [-> | ->], Hm as [-> | [-> | ->]]; discriminate.
          + destruct Hm as [-> | [-> | ->]]; discriminate.
        - destruct H as [H|H]; [destruct Hm as [-> | [-> | ->]]; discriminate|].
          apply in_app_or in H as [H|H].
          + apply Hno in H. destruct Hm as [-> | [-> | ->]]; exact H.
          + destruct Hm as [-> | [-> | ->]];
              repeat (destruct H as [H|H]; [discriminate H|]); exact H. }
      destruct Hin as [H | [H | H]]; eapply Hcase; try exact H; tauto.
Qed.

Lemma rate_limited_request_reads r s :
  reads_liked r = true ->
  Forall (fun c => reads_liked (fst c) = true)
    (calls (log_of (rate_limited_request (call r) s))).
Proof.
  intros Hr. eapply Forall_impl; [apply rate_limited_request_target|].
  intros c ->. exact Hr.
Qed.

Lemma liked_pages_reads limit fuel : forall results liked s,
  Forall (fun c => reads_liked (fst c) = true)
    (calls (log_of (liked_pages fuel limit results liked s))).
Proof.
  induction fuel as [|fuel IH]; intros results liked s.
  - destruct results; constructor.
  - destruct results as [page|]; [|constructor].
    cbn [liked_pages].
    destruct (truthy (next page) && below_limit limit (liked ++ page_uris page));
      [|constructor].
    rewrite log_of_bind, calls_app. apply Forall_app. split.
    + apply rate_limited_request_reads. reflexivity.
    + destruct (result_of (rate_limited_request _ s)); try constructor. apply IH.
Qed.

Lemma fetch_liked_reads fuel limit s :
  Forall (fun c => reads_liked (fst c) = true)
    (calls (log_of (fetch_liked fuel limit s))).
Proof.
  unfold fetch_liked. rewrite log_of_bind, calls_app. apply Forall_app. split.
  - apply rate_limited_request_reads. reflexivity.
  - destruct (result_of (rate_limited_request _ s)); try constructor.
    rewrite log_of_bind, calls_app. apply Forall_app. split; [apply liked_pages_reads|].
    destruct (result_of (liked_pages _ _ _ _ _)); constructor.
Qed.

(** X16. A negative limit is taken as it is: it is sent as the page size,
    no further page is asked for, and the slice [liked[:limit]] drops
    the last [-limit] songs of the first page. *)
Theorem negative_limit_drops_last_songs n fuel s :
  n < 0 ->
  let first := rate_limited_request (call (sp_current_user_saved_tracks n)) s in
  fetch_liked (S fuel) (Some n) s =
  (match result_of first with
   | Val (Some page) =>
       Val (firstn (length (page_uris page) - Z.to_nat (- n)) (page_uris page))
   | Val None => Val []
   | Exc e => Exc e
   | OutOfFuel => OutOfFuel
   end, env_of first, log_of first).
Proof.
  intros Hn first. unfold fetch_liked.
  assert (Hlimit : limit_or_50 (Some n) = n).
  { unfold limit_or_50, truthy_int.
    replace (n =? 0) with false by (symmetry; apply Z.eqb_neq; lia). reflexivity. }
  rewrite Hlimit, bind_unfold. fold first.
  destruct (result_of first) as [[page|]|e|]; try reflexivity.
  - rewrite bind_unfold. cbn [liked_pages below_limit app].
    replace (Z.of_nat (length (page_uris page)) <? n) with false
      by (symmetry; apply Z.ltb_ge; lia).
    rewrite andb_false_r. cbn [ret result_of env_of log_of fst snd].
    rewrite !app_nil_r. f_equal. f_equal. f_equal.
    unfold truncate_liked, truthy_int, slice_to.
    replace (n =? 0) with false by (symmetry; apply Z.eqb_neq; lia).
    replace (n <? Z.of_nat (length (page_uris page))) with true
      by (symmetry; apply Z.ltb_lt; lia).
    replace (0 <=? n) with false by (symmetry; apply Z.leb_gt; lia).
    cbn [negb andb]. f_equal. lia.
  - rewrite bind_unfold. cbn [liked_pages ret result_of env_of log_of fst snd].
    rewrite !app_nil_r. unfold truncate_liked, truthy_int, slice_to.
    replace (n =? 0) with false by (symmetry; apply Z.eqb_neq; lia).
    replace (0 <=? n) with false by (symmetry; apply Z.leb_gt; lia).
    cbn [negb andb length]. destruct (n <? Z.of_nat 0); [|reflexivity].
    rewrite firstn_nil. reflexivity.
Qed.

Lemma Prompt_ask_eof dflt s :
  stdin s = [] ->
  Prompt_ask None (Some dflt) s = (Exc EOFError, {| world := world s; stdin := [] |}, []).
Proof. intros Hin. unfold Prompt_ask. rewrite Hin. reflexivity. Qed.

Lemma create_playlist_from_liked_short fuel s :
  (length (stdin s) < 2)%nat ->
  result_of (create_playlist_from_liked fuel s) = Exc EOFError /\
  log_of (create_playlist_from_liked fuel s) = [EPrint CreateHeader].
Proof.
  intros Hlen. rewrite create_playlist_from_liked_unfold.
  erewrite bind_val by reflexivity.
  destruct (stdin s) as [|name_line [|limit_line rest]] eqn:Hin.
  - rewrite bind_unfold, (Prompt_ask_eof _ s Hin). split; reflexivity.
  - erewrite bind_val by (apply Prompt_ask_free; exact Hin).
    rewrite bind_unfold, Prompt_ask_eof by reflexivity. split; reflexivity.
  - cbn in Hlen. lia.
Qed.

Lemma export_fetched_calls name liked s :
  calls (log_of (export_fetched name liked s)) =
  match read_confirm (stdin s) with
  | Some (true, rest) =>
      let user := call sp_current_user {| world := world s; stdin := rest |} in
      calls (log_of user) ++
      match result_of user with
      | Val u =>
          let create :=
            rate_limited_request
              (call (sp_user_playlist_create (user_id u) name false
                       "Created by Lalo Spotify Tool")) (env_of user) in
          calls (log_of create) ++
          match result_of create with
          | Val playlist =>
              calls (log_of (upload_batches playlist liked
                               (range_step (length liked) 100) (env_of create)))
          | _ => []
          end
      | _ => []
      end
  | _ => []
  end.
Proof.
  rewrite export_fetched_log, calls_print.
  destruct (read_confirm (stdin s)) as [[[|] rest]|]; try reflexivity.
  cbv zeta. rewrite calls_app. f_equal.
  destruct (result_of (call sp_current_user _)) as [u|e|]; try reflexivity.
  rewrite calls_app. f_equal.
  destruct (result_of (rate_limited_request _ _)) as [playlist|e|]; try reflexivity.
  rewrite calls_print, calls_app.
  destruct (result_of (upload_batches _ _ _ _)); try (rewrite app_nil_r; reflexivity).
  destruct playlist; rewrite app_nil_r; reflexivity.
Qed.

Lemma create_playlist_from_liked_calls fuel s :
  calls (log_of (create_playlist_from_liked fuel s)) = [] \/
  exists name limit s0,
    let fetch := fetch_liked fuel limit s0 in
    calls (log_of (create_playlist_from_liked fuel s)) =
    calls (log_of fetch) ++
    match result_of fetch with
    | Val liked => calls (log_of (export_fetched name liked (env_of fetch)))
    | _ => []
    end.
Proof.
  destruct (stdin s) as [|name_line [|limit_line rest]] eqn:Hin.
  - left. destruct (create_playlist_from_liked_short fuel s) as [_ ->];
      [rewrite Hin; cbn; lia|reflexivity].
  - left. destruct (create_playlist_from_liked_short fuel s) as [_ ->];
      [rewrite Hin; cbn; lia|reflexivity].
  - right. eexists _, _, _. cbv zeta.
    rewrite (create_playlist_from_liked_log fuel s _ _ _ Hin). cbv zeta.
    rewrite !calls_print, calls_app. f_equal.
    destruct (result_of (fetch_liked _ _ _)) as [liked|e|]; try reflexivity.
    rewrite calls_app, calls_handler, app_nil_r. reflexivity.
Qed.

Lemma upload_batches_targets playlist liked : forall starts s,
  Forall (fun c => exists p batch,
            playlist = Some p /\ fst c = sp_playlist_add_items (playlist_id p) batch)
    (calls (log_of (upload_batches playlist liked starts s))).
Proof.
  induction starts as [|i starts IH]; intros s; [constructor|].
  cbn [upload_batches]. rewrite log_of_bind.
  destruct playlist as [p|]; cbn [subscript ret raise result_of env_of log_of fst snd app];
    [|constructor].
  rewrite log_of_bind, calls_app. apply Forall_app. split.
  - eapply Forall_impl; [apply rate_limited_request_target|].
    intros c ->. eauto.
  - destruct (result_of (rate_limited_request _ s)); try constructor.
    rewrite log_of_bind. cbn [emit result_of env_of log_of fst snd app]. apply IH.
Qed.

Lemma call_calls r s :
  Forall (fun c => fst c = r) (calls (log_of (call r s))).
Proof.
  unfold call. destruct (respond r (world s)) as [[e|v] w]; repeat constructor.
Qed.

Lemma rate_limited_request_returned r s v :
  result_of (rate_limited_request (call r) s) = Val (Some v) ->
  In (r, Returned (to_value r v)) (calls (log_of (rate_limited_request (call r) s))).
Proof.
  intros Hres. destruct (rate_limited_request_calls r s) as (fails & _ & -> & _).
  rewrite Hres. apply in_or_app. right. left. reflexivity.
Qed.

(** X18. Every batch is added to the playlist that this run created: a
    call of playlist_add_items has the id of a playlist that a call of
    user_playlist_create returned in the same run. *)
Theorem uploads_go_to_the_created_playlist fuel s pid batch out :
  In (sp_playlist_add_items pid batch, out)
     (calls (log_of (create_playlist_from_liked fuel s))) ->
  exists user name public description p,
    In (sp_user_playlist_create user name public description, Returned (VPlaylist p))
       (calls (log_of (create_playlist_from_liked fuel s))) /\
    playlist_id p = pid.
Proof.
  destruct (create_playlist_from_liked_calls fuel s)
    as [-> | (name & limit & s0 & Hcalls)]; [intros []|].
  cbv zeta in Hcalls. rewrite Hcalls. clear Hcalls. intros Hin.
  apply in_app_or in Hin as [Hin | Hin].
  { pose proof (fetch_liked_reads fuel limit s0) as Hreads.
    rewrite List.Forall_forall in Hreads. apply Hreads in Hin. discriminate. }
  destruct (result_of (fetch_liked fuel limit s0)) as [liked|e|]; try contradiction.
  rewrite export_fetched_calls in Hin |- *.
  destruct (read_confirm _) as [[[|] rest]|]; try contradiction.
  cbv zeta in Hin |- *.
  set (user := call sp_current_user _) in *.
  apply in_app_or in Hin as [Hin | Hin].
  { pose proof (call_calls sp_current_user {| world := world (env_of (fetch_liked fuel limit s0)); stdin := rest |}) as Hc.
    fold user in Hc. rewrite List.Forall_forall in Hc. apply Hc in Hin. discriminate. }
  destruct (result_of user) as [u|e|]; try contradiction.
  set (create := rate_limited_request _ (env_of user)) in *.
  apply in_app_or in Hin as [Hin | Hin].
  { pose proof (rate_limited_request_target
                  (sp_user_playlist_create (user_id u) name false
                     "Created by Lalo Spotify Tool") (env_of user)) as Hc.
    fold create in Hc. rewrite List.Forall_forall in Hc. apply Hc in Hin. discriminate. }
  destruct (result_of create) as [playlist|e|] eqn:Hres; try contradiction.
  pose proof (upload_batches_targets playlist liked (range_step (length liked) 100)
                (env_of create)) as Hc.
  rewrite List.Forall_forall in Hc. apply Hc in Hin as (p & batch' & -> & Hp).
  cbn [fst] in Hp. injection Hp as Hpid _.
  exists (user_id u), name, false, "Created by Lalo Spotify Tool", p.
  split; [|symmetry; exact Hpid].
  apply in_or_app. right. apply in_or_app. right. apply in_or_app. left.
  apply (rate_limited_request_returned
           (sp_user_playlist_create (user_id u) name false
              "Created by Lalo Spotify Tool") (env_of user) p Hres).
Qed.

Lemma loop_events_not_cancelled log :
  Forall loop_event log -> ~ In (EPrint Cancelled) log.
Proof.
  intros Hall Hin. rewrite List.Forall_forall in Hall. apply (Hall _ Hin).
Qed.

Lemma call_events r s : Forall loop_event (log_of (call r s)).
Proof.
  unfold call. destruct (respond r (world s)) as [[e|v] w]; repeat constructor.
Qed.

Lemma export_confirmed_not_cancelled name liked s rest :
  read_confirm (stdin s) = Some (true, rest) ->
  ~ In (EPrint Cancelled) (log_of (export_fetched name liked s)).
Proof.
  intros Hyes. rewrite export_fetched_log, Hyes. cbv zeta. intros [Hin | Hin]; [discriminate|].
  apply in_app_or in Hin as [Hin | Hin].
  { exact (loop_events_not_cancelled _ (call_events _ _) Hin). }
  destruct (result_of (call sp_current_user _)) as [u|e|]; try contradiction.
  apply in_app_or in Hin as [Hin | Hin].
  { destruct (rate_limited_request_summary
                (sp_user_playlist_create (user_id u) name false
                   "Created by Lalo Spotify Tool")
                (env_of (call sp_current_user {| world := world s; stdin := rest |})))
      as (_ & _ & _ & _ & Hev).
    exact (loop_events_not_cancelled _ Hev Hin). }
  destruct (result_of (rate_limited_request _ _)) as [playlist|e|]; try contradiction.
  destruct Hin as [Hin | Hin]; [discriminate|].
  apply in_app_or in Hin as [Hin | Hin].
  { exact (loop_events_not_cancelled _ (upload_batches_events _ _ _ _) Hin). }
  destruct (result_of (upload_batches _ _ _ _)); try contradiction.
  destruct Hin as [Hin | Hin]; [discriminate|].
  destruct playlist; [destruct Hin as [Hin | []]; discriminate|contradiction].
Qed.

(** X19. An export that prints "Cancelled." has only read the liked songs:
    it has asked for the first page and for further pages, and has not
    asked for the user, created a playlist or added to one. *)
Theorem cancelled_export_only_reads fuel s :
  In (EPrint Cancelled) (log_of (create_playlist_from_liked fuel s)) ->
  Forall (fun c => reads_liked (fst c) = true)
    (calls (log_of (create_playlist_from_liked fuel s))).
Proof.
  destruct (stdin s) as [|name_line [|limit_line rest]] eqn:Hin.
  - destruct (create_playlist_from_liked_short fuel s) as [_ ->];
      [rewrite Hin; cbn; lia|constructor].
  - destruct (create_playlist_from_liked_short fuel s) as [_ ->];
      [rewrite Hin; cbn; lia|constructor].
  - rewrite (create_playlist_from_liked_log fuel s _ _ _ Hin). cbv zeta.
    rewrite !calls_print, calls_app.
    set (fetch := fetch_liked fuel _ _).
    pose proof (fetch_liked_reads fuel (parse_limit (answer "100" limit_line))
                  {| world := world s; stdin := rest |}) as Hreads.
    pose proof (fetch_liked_events (parse_limit (answer "100" limit_line)) fuel
                  {| world := world s; stdin := rest |}) as Hevents.
    fold fetch in Hreads, Hevents.
    intros Hc. apply Forall_app. split; [exact Hreads|].
    destruct (result_of fetch) as [liked|e|]; try constructor.
    rewrite calls_app, calls_handler, app_nil_r, export_fetched_calls.
    destruct (read_confirm (stdin (env_of fetch))) as [[[|] rest']|] eqn:Hyes;
      try constructor.
    exfalso.
    destruct Hc as [Hc | [Hc | Hc]]; try discriminate.
    apply in_app_or in Hc as [Hc | Hc].
    { exact (loop_events_not_cancelled _ Hevents Hc). }
    apply in_app_or in Hc as [Hc | Hc].
    { exact (export_confirmed_not_cancelled _ _ _ _ Hyes Hc). }
    destruct (result_of (export_fetched _ _ _)); try contradiction.
    destruct Hc as [Hc | []]; discriminate.
Qed.

Lemma advanced_print m log : advanced (EPrint m :: log) = advanced log.
Proof. reflexivity. Qed.

Lemma advanced_advance n log :
  advanced (EAdvance n :: log) = (n + advanced log)%nat.
Proof. reflexivity. Qed.

Lemma liked_pages_advanced limit fuel : forall results liked s,
  advanced (log_of (liked_pages fuel limit results liked s)) = 0%nat.
Proof.
  induction fuel as [|fuel IH]; intros results liked s.
  - destruct results; reflexivity.
  - destruct results as [page|]; [|reflexivity].
    cbn [liked_pages].
    destruct (truthy (next page) && below_limit limit (liked ++ page_uris page));
      [|reflexivity].
    rewrite log_of_bind, advanced_app, rate_limited_request_advances.
    destruct (result_of (rate_limited_request _ s)); try reflexivity. apply IH.
Qed.

Lemma fetch_liked_advanced fuel limit s :
  advanced (log_of (fetch_liked fuel limit s)) = 0%nat.
Proof.
  unfold fetch_liked.
  rewrite log_of_bind, advanced_app, rate_limited_request_advances.
  destruct (result_of (rate_limited_request _ s)); try reflexivity.
  rewrite log_of_bind, advanced_app, liked_pages_advanced.
  destruct (result_of (liked_pages _ _ _ _ _)); reflexivity.
Qed.

Lemma call_advanced r s : advanced (log_of (call r s)) = 0%nat.
Proof. unfold call. destruct (respond r (world s)) as [[e|v] w]; reflexivity. Qed.

Lemma upload_batches_advanced playlist liked : forall starts s,
  result_of (upload_batches playlist liked starts s) = Val tt ->
  advanced (log_of (upload_batches playlist liked starts s)) =
  list_sum ((fun i => length (slice liked i (i + 100))) <$> starts).
Proof.
  induction starts as [|i starts IH]; intros s; [reflexivity|].
  cbn [upload_batches]. rewrite result_of_bind, log_of_bind.
  destruct playlist as [p|]; cbn [subscript ret raise result_of env_of log_of fst snd app];
    [|discriminate].
  rewrite result_of_bind, log_of_bind, advanced_app, rate_limited_request_advances.
  destruct (result_of (rate_limited_request _ s)); try discriminate.
  rewrite result_of_bind, log_of_bind.
  cbn [emit result_of env_of log_of fst snd app].
  intros Hres. rewrite advanced_advance, (IH _ Hres). reflexivity.
Qed.

Lemma batches_total (liked : list string) :
  list_sum ((fun i => length (slice liked i (i + 100))) <$> range_step (length liked) 100)
  = length liked.
Proof.
  transitivity (length (concat (batches liked)));
    [|rewrite batches_concat; reflexivity].
  unfold batches.
  generalize (range_step (length liked) 100). intros starts.
  induction starts as [|i starts IH]; [reflexivity|].
  cbn [fmap list_fmap concat]. rewrite length_app, <- IH. reflexivity.
Qed.

Lemma loop_events_not_found log n :
  Forall loop_event log -> ~ In (EPrint (FoundLiked n)) log.
Proof.
  intros Hall Hin. rewrite List.Forall_forall in Hall. apply (Hall _ Hin).
Qed.

Lemma export_fetched_advanced name liked s :
  In (EPrint (Success name)) (log_of (export_fetched name liked s)) ->
  advanced (log_of (export_fetched name liked s)) = length liked.
Proof.
  rewrite export_fetched_log, advanced_print.
  intros [Hin | Hin]; [discriminate|]. revert Hin.
  destruct (read_confirm (stdin s)) as [[[|] rest]|];
    [|intros [Hin | []]; discriminate|intros []].
  cbv zeta. rewrite advanced_app, call_advanced.
  assert (Hloop : forall log, Forall loop_event log -> ~ In (EPrint (Success name)) log).
  { intros log Hall Hin. rewrite List.Forall_forall in Hall. apply (Hall _ Hin). }
  intros Hin. apply in_app_or in Hin as [Hin | Hin].
  { destruct (Hloop _ (call_events _ _) Hin). }
  destruct (result_of (call sp_current_user _)) as [u|e|]; try contradiction.
  rewrite advanced_app, rate_limited_request_advances.
  apply in_app_or in Hin as [Hin | Hin].
  { destruct (rate_limited_request_summary
                (sp_user_playlist_create (user_id u) name false
                   "Created by Lalo Spotify Tool")
                (env_of (call sp_current_user {| world := world s; stdin := rest |})))
      as (_ & _ & _ & _ & Hev).
    destruct (Hloop _ Hev Hin). }
  destruct (result_of (rate_limited_request _ _)) as [playlist|e|]; try contradiction.
  rewrite advanced_print, advanced_app.
  destruct Hin as [Hin | Hin]; [discriminate|].
  apply in_app_or in Hin as [Hin | Hin].
  { destruct (Hloop _ (upload_batches_events _ _ _ _) Hin). }
  destruct (result_of (upload_batches _ _ _ _)) as [[]|e|] eqn:Hres; try contradiction.
  rewrite (upload_batches_advanced _ _ _ _ Hres), batches_total.
  destruct playlist; cbn; lia.
Qed.

(** X20. When an export prints "Success!", the progress bar has advanced
    by the number of liked songs announced in "Found n liked songs":
    the bar moves by the size of each batch after its upload returned,
    whether or not the upload added the batch. *)
Theorem export_progress_is_complete fuel s name :
  In (EPrint (Success name)) (log_of (create_playlist_from_liked fuel s)) ->
  exists n, In (EPrint (FoundLiked n)) (log_of (create_playlist_from_liked fuel s)) /\
            advanced (log_of (create_playlist_from_liked fuel s)) = n.
Proof.
  destruct (stdin s) as [|name_line [|limit_line rest]] eqn:Hin.
  - destruct (create_playlist_from_liked_short fuel s) as [_ ->];
      [rewrite Hin; cbn; lia|]. intros [H | []]; discriminate.
  - destruct (create_playlist_from_liked_short fuel s) as [_ ->];
      [rewrite Hin; cbn; lia|]. intros [H | []]; discriminate.
  - rewrite (create_playlist_from_liked_log fuel s _ _ _ Hin). cbv zeta.
    set (fetch := fetch_liked fuel _ _).
    pose proof (fetch_liked_advanced fuel (parse_limit (answer "100" limit_line))
                  {| world := world s; stdin := rest |}) as Hadv.
    pose proof (fetch_liked_events (parse_limit (answer "100" limit_line)) fuel
                  {| world := world s; stdin := rest |}) as Hevents.
    fold fetch in Hadv, Hevents.
    rewrite !advanced_print, advanced_app, Hadv.
    intros Hc. destruct Hc as [Hc | [Hc | Hc]]; try discriminate.
    apply in_app_or in Hc as [Hc | Hc].
    { rewrite List.Forall_forall in Hevents. destruct (Hevents _ Hc). }
    destruct (result_of fetch) as [liked|e|];
      [|destruct Hc as [Hc | []]; discriminate|contradiction].
    set (name' := answer "My Liked Songs Backup" name_line) in *.
    assert (Hs : In (EPrint (Success name)) (log_of (export_fetched name' liked (env_of fetch)))).
    { apply in_app_or in Hc as [Hc | Hc]; [exact Hc|].
      destruct (result_of (export_fetched _ _ _)); try contradiction.
      destruct Hc as [Hc | []]; discriminate. }
    assert (Hname : name = name').
    { clear -Hs. rewrite export_fetched_log in Hs.
      assert (Hloop : forall log, Forall loop_event log -> ~ In (EPrint (Success name)) log).
      { intros log Hall Hin. rewrite List.Forall_forall in Hall. apply (Hall _ Hin). }
      destruct Hs as [Hs | Hs]; [discriminate|]. revert Hs.
      destruct (read_confirm _) as [[[|] rest']|];
        [|intros [Hs | []]; discriminate|intros []].
      cbv zeta. intros Hs. apply in_app_or in Hs as [Hs | Hs].
      { destruct (Hloop _ (call_events _ _) Hs). }
      destruct (result_of (call sp_current_user _)) as [u|e|]; try contradiction.
      apply in_app_or in Hs as [Hs | Hs].
      { destruct (rate_limited_request_summary
                    (sp_user_playlist_create (user_id u) name' false
                       "Created by Lalo Spotify Tool")
                    (env_of (call sp_current_user
                               {| world := world (env_of fetch); stdin := rest' |})))
          as (_ & _ & _ & _ & Hev).
        destruct (Hloop _ Hev Hs). }
      destruct (result_of (rate_limited_request _ _)) as [playlist|e|]; try contradiction.
      destruct Hs as [Hs | Hs]; [discriminate|].
      apply in_app_or in Hs as [Hs | Hs].
      { destruct (Hloop _ (upload_batches_events _ _ _ _) Hs). }
      destruct (result_of (upload_batches _ _ _ _)) as [[]|e|]; try contradiction.
      destruct Hs as [Hs | Hs]; [congruence|].
      destruct playlist; [destruct Hs as [Hs | []]; discriminate|contradiction]. }
    subst name. exists (length liked). split.
    + right. right. apply in_or_app. right. apply in_or_app. left.
      rewrite export_fetched_log. left. reflexivity.
    + rewrite advanced_app, (export_fetched_advanced _ _ _ Hs).
      destruct (result_of (export_fetched _ _ _)); cbn; lia.
Qed.

Lemma rate_limited_request_loads r s :
  loads r = true ->
  Forall (fun c => loads (fst c) = true)
    (calls (log_of (rate_limited_request (call r) s))).
Proof.
  intros Hr. eapply Forall_impl; [apply rate_limited_request_target|].
  intros c ->. exact Hr.
Qed.

Lemma playlist_pages_loads fuel : forall results tracks s,
  Forall (fun c => loads (fst c) = true)
    (calls (log_of (playlist_pages fuel results tracks s))).
Proof.
  induction fuel as [|fuel IH]; intros results tracks s.
  - destruct results; constructor.
  - destruct results as [page|]; [|constructor].
    cbn [playlist_pages]. destruct (truthy (next page)); [|constructor].
    rewrite log_of_bind, calls_app. apply Forall_app. split.
    + apply rate_limited_request_loads. reflexivity.
    + destruct (result_of (rate_limited_request _ s)); try constructor. apply IH.
Qed.

Lemma load_playlist_loads fuel id s :
  Forall (fun c => loads (fst c) = true) (calls (log_of (load_playlist fuel id s))).
Proof.
  unfold load_playlist. rewrite log_of_bind, calls_app. apply Forall_app. split.
  { apply rate_limited_request_loads. reflexivity. }
  destruct (result_of (rate_limited_request _ s)); try constructor.
  rewrite log_of_bind, calls_app. apply Forall_app. split.
  { apply rate_limited_request_loads. reflexivity. }
  destruct (result_of (rate_limited_request _ _)); try constructor.
  rewrite log_of_bind, calls_app. apply Forall_app. split; [apply playlist_pages_loads|].
  destruct (result_of (playlist_pages _ _ _ _)); constructor.
Qed.

(** What get_playlist_info_and_tracks gives its caller. *)
Lemma get_playlist_info_and_tracks_cases fuel id s :
  let run := get_playlist_info_and_tracks fuel id s in
  Forall (fun c => loads (fst c) = true) (calls (log_of run)) /\
  (result_of run = OutOfFuel \/
   exists info tracks,
     result_of run = Val (info, tracks) /\
     forall t, In t tracks ->
       exists page, In page (pages_returned (log_of run)) /\ In t (page_tracks page)).
Proof.
  cbv zeta. rewrite get_playlist_info_and_tracks_unfold. cbv zeta.
  pose proof (load_playlist_loads fuel id s) as Hloads.
  destruct (result_of (load_playlist fuel id s)) as [[info tracks]|e|] eqn:Hres;
    cbn [result_of log_of fst snd].
  - split; [exact Hloads|]. right. exists info, tracks. split; [reflexivity|].
    intros t Hin. rewrite (load_playlist_collects fuel id s info tracks Hres) in Hin.
    apply in_flat_map in Hin. exact Hin.
  - split.
    + rewrite calls_app. cbn. rewrite app_nil_r. exact Hloads.
    + right. exists None, []. split; [reflexivity|]. intros t [].
  - split; [exact Hloads|]. left. reflexivity.
Qed.

Lemma main_playlist_log fuel choice id s :
  let get := get_playlist_info_and_tracks fuel id s in
  let mode := if String.eqb choice "1" then "add" else "remove" in
  log_of (main_playlist fuel choice id s) =
  EPrint LoadingPlaylist :: log_of get ++
  match result_of get with
  | Val (info, []) => [EPrint NoTracksLoaded; EPrint Dashboard]
  | Val (info, tracks) =>
      EPrint (FoundTracks (length tracks)) :: EPrint (PlaylistPreview info tracks) ::
      log_of (process_songs tracks mode (env_of get)) ++
      match result_of (process_songs tracks mode (env_of get)) with
      | Val _ => [EPrint BackToDashboard; EPrint Dashboard]
      | _ => []
      end
  | _ => []
  end.
Proof.
  cbv zeta. unfold main_playlist. do 2 log_next. f_equal. f_equal.
  destruct (result_of (get_playlist_info_and_tracks fuel id s))
    as [[info [|t tracks]]|e|]; try reflexivity.
  unfold show_playlist_preview, show_dashboard. do 3 log_next. do 3 f_equal.
Qed.

(** X21. Every call of a run of main on a playlist either reads the
    playlist, or is about a uri that a page returned in this run
    carries: the membership check of it, for the choice 1 the add of it,
    for any other choice the delete of it. *)
Theorem main_playlist_touches_only_loaded_tracks fuel choice id s c :
  In c (calls (log_of (main_playlist fuel choice id s))) ->
  loads (fst c) = true \/
  exists page u,
    In page (pages_returned (log_of (main_playlist fuel choice id s))) /\
    In u (page_uris page) /\
    (fst c = sp_current_user_saved_tracks_contains [u] \/
     (choice = "1" /\ fst c = sp_current_user_saved_tracks_add [u]) \/
     (choice <> "1" /\ fst c = sp_current_user_saved_tracks_delete [u])).
Proof.
  rewrite main_playlist_log. cbv zeta.
  destruct (get_playlist_info_and_tracks_cases fuel id s) as (Hloads & Hres).
  cbv zeta in Hloads, Hres. rewrite List.Forall_forall in Hloads.
  set (get := get_playlist_info_and_tracks fuel id s) in *.
  rewrite calls_print, calls_app. intros Hin.
  apply in_app_or in Hin as [Hin | Hin]; [left; apply Hloads; exact Hin|].
  destruct Hres as [Hres | (info & tracks & Hres & Hpages)];
    rewrite Hres in Hin |- *; [destruct Hin|].
  destruct tracks as [|t0 tracks]; [destruct Hin|].
  set (mode := if String.eqb choice "1" then "add" else "remove") in *.
  assert (Hmode : valid_mode mode).
  { subst mode. destruct (String.eqb choice "1"); [left|right]; reflexivity. }
  rewrite !calls_print, calls_app in Hin.
  apply in_app_or in Hin as [Hin | Hin].
  2: { destruct (result_of (process_songs _ _ _)); destruct Hin. }
  destruct (process_songs_calls (t0 :: tracks) mode (env_of get) Hmode) as (Hall & _).
  rewrite List.Forall_forall in Hall. destruct (Hall c Hin) as (t & Ht & Hc).
  destruct (Hpages t Ht) as (page & Hpage & Htp).
  right. exists page, (uri t). split.
  { change (EPrint LoadingPlaylist :: ?l) with ([EPrint LoadingPlaylist] ++ l).
    rewrite !pages_returned_app. apply in_or_app. right. apply in_or_app. left.
    exact Hpage. }
  split.
  { rewrite <- page_tracks_uris_eq. apply in_map. exact Htp. }
  destruct Hc as [Hc | Hc]; [left; exact Hc|right].
  subst mode. destruct (String.eqb_spec choice "1") as [-> | Hne].
  - left. split; [reflexivity|exact Hc].
  - right. split; [exact Hne|exact Hc].
Qed.

Lemma rate_limited_request_first r s :
  exists out more,
    calls (log_of (rate_limited_request (call r) s)) = (r, out) :: more.
Proof.
  pose proof (rate_limited_request_count r s) as Hn.
  pose proof (rate_limited_request_target r s) as Ht.
  destruct (calls (log_of (rate_limited_request (call r) s))) as [|[r' out] more];
    [cbn in Hn; lia|].
  apply Forall_cons in Ht as [Hr _]. cbn in Hr. subst r'. eauto.
Qed.

Lemma main_playlist_first fuel choice id s :
  exists out more,
    calls (log_of (main_playlist fuel choice id s)) = (sp_playlist id, out) :: more.
Proof.
  rewrite main_playlist_log. cbv zeta.
  rewrite calls_print, calls_app, get_playlist_info_and_tracks_unfold. cbv zeta.
  destruct (rate_limited_request_first (sp_playlist id) s) as (out & more & Hfirst).
  assert (Hload : exists more',
            calls (log_of (load_playlist fuel id s)) = (sp_playlist id, out) :: more').
  { unfold load_playlist. rewrite log_of_bind, calls_app, Hfirst. cbn [app]. eauto. }
  destruct Hload as (more' & Hload).
  exists out.
  destruct (result_of (load_playlist fuel id s)); cbn [log_of snd];
    rewrite ?calls_app, Hload; cbn [app]; eauto.
Qed.

(** X23. A pasted link that carries a playlist identifier is never taken
    for the word that goes back: main prints the identifier and the
    first thing it asks of the service is that playlist. *)
Theorem main_link_loads_the_linked_playlist fuel choice s typed rest id :
  stdin s = typed :: rest ->
  is_ascii typed = true ->
  extract_playlist_id (strip typed) = Some id ->
  In (Shell (PlaylistId id)) (snd (main_link fuel choice s)) /\
  exists out more,
    calls (core (snd (main_link fuel choice s))) = (sp_playlist id, out) :: more.
Proof.
  intros Hin _ Hid. unfold main_link, Prompt_ask. rewrite Hin.
  cbn [read_answer accepts]. rewrite (link_is_not_back _ _ Hid), Hid.
  destruct (main_playlist_first fuel choice id {| world := world s; stdin := rest |})
    as (out & more & Hfirst).
  destruct (main_playlist fuel choice id _) as [[res s2] log] eqn:Hrun.
  cbn [snd log_of] in *. split; [right; left; reflexivity|].
  exists out, more. cbn [core omap list_omap core_of]. 
  change (omap core_of (Core <$> log)) with (core (Core <$> log)).
  rewrite core_fmap. exact Hfirst.
Qed.

End MoreProperties.

(** ** The properties on concrete runs

    Runs against the scripted service: a mutation that fails terminally,
    and the theorems above applied to concrete inputs. *)

(** C1 (the code departs from the claim).  Add mode, one track that is not
    liked, and an add-mutation that fails five times in a row:
    rate_limited_request prints "Max retries reached" and returns None, and
    process_songs nevertheless prints "Added" for the track and reports one
    processed song; the error branch is not taken.  The claim has the track
    in the Failed state, counted neither as processed nor as skipped. *)
Theorem failed_add_counted_as_processed :
  let run := process_songs [track_A] "add" add_fails in
  calls (log_of run) =
    (sp_current_user_saved_tracks_contains [uri track_A], Returned (VBools [false]))
    :: replicate 5 (sp_current_user_saved_tracks_add [uri track_A],
                    Raised (SpotifyException 500 None)) /\
  In (EPrint MaxRetriesReached) (log_of run) /\
  In (EPrint (Added (display track_A))) (log_of run) /\
  In (EPrint (ProcessedCount 1)) (log_of run) /\
  In (EPrint (SkippedCount 0)) (log_of run) /\
  failed (log_of run) = 0%nat.
Proof.
  vm_compute. repeat split; tauto.
Qed.

(** C2 (the code departs from the claim; the defect is the one of C1).
    Remove mode, two liked tracks, the delete of B failing five times in a
    row: the run completes, "Max retries reached" is logged once, for B,
    and B is nevertheless reported "Removed" and counted: the run prints
    "Processed: 2" and "Skipped: 0" and no "Error on" line.  The track
    whose mutation failed terminally is inside processed, so processed,
    skipped and the logged terminal failure add up to 3 for 2 tracks. *)
Theorem terminal_failure_not_accounted_as_failed :
  let run := process_songs [track_A; track_B] "remove" delete_fails in
  completed (log_of run) /\
  calls (log_of run) =
    (sp_current_user_saved_tracks_contains [uri track_B], Returned (VBools [true]))
    :: replicate 5 (sp_current_user_saved_tracks_delete [uri track_B],
                    Raised (SpotifyException 500 None))
    ++ [(sp_current_user_saved_tracks_contains [uri track_A], Returned (VBools [true]));
        (sp_current_user_saved_tracks_delete [uri track_A], Returned VUnit)] /\
  gave_up (log_of run) = 1%nat /\
  In (EPrint (Removed (display track_B))) (log_of run) /\
  In (EPrint (ProcessedCount 2)) (log_of run) /\
  In (EPrint (SkippedCount 0)) (log_of run) /\
  failed (log_of run) = 0%nat /\
  (2 + 0 + gave_up (log_of run) <> length [track_A; track_B])%nat.
Proof.
  vm_compute. repeat split; try tauto. discriminate.
Qed.



(** Three tracks in add mode, the second one already liked: three blocks
    of calls, for C, B and A in this order. *)
Lemma tracks_visited_in_reverse_witness :
  valid_mode "add" /\
  completed (log_of (process_songs three_tracks "add" b_liked)) /\
  exists blocks,
    calls (log_of (process_songs three_tracks "add" b_liked)) = concat blocks /\
    Forall2 (block_of "add") (firstn (length blocks) (rev three_tracks)) blocks /\
    (completed (log_of (process_songs three_tracks "add" b_liked)) ->
     length blocks = length three_tracks /\
     visited (log_of (process_songs three_tracks "add" b_liked))
     = display <$> rev three_tracks).
Proof.
  assert (Hmode : valid_mode "add") by (left; reflexivity).
  assert (Hdone : completed (log_of (process_songs three_tracks "add" b_liked)))
    by (vm_compute; tauto).
  split; [exact Hmode|]. split; [exact Hdone|].
  exact (tracks_visited_in_reverse (W := list Scripted) three_tracks "add" b_liked Hmode).
Defined.

(** In the same run the first add call, for C, comes right after the check
    that reported C as not liked. *)
Lemma mutation_follows_its_check_witness :
  calls (log_of (process_songs three_tracks "add" b_liked))
  = [(sp_current_user_saved_tracks_contains [uri track_C], Returned (VBools [false]))]
    ++ (sp_current_user_saved_tracks_add [uri track_C], Returned VUnit)
       :: [(sp_current_user_saved_tracks_contains [uri track_B],
            Returned (VBools [true]));
           (sp_current_user_saved_tracks_contains [uri track_A],
            Returned (VBools [false]));
           (sp_current_user_saved_tracks_add [uri track_A], Returned VUnit)] /\
  exists u,
    [uri track_C] = [u] /\
    latest_check
      [(sp_current_user_saved_tracks_contains [uri track_C], Returned (VBools [false]))]
    = Some (u, false).
Proof.
  assert (Hsplit : calls (log_of (process_songs three_tracks "add" b_liked))
    = [(sp_current_user_saved_tracks_contains [uri track_C], Returned (VBools [false]))]
      ++ (sp_current_user_saved_tracks_add [uri track_C], Returned VUnit)
         :: [(sp_current_user_saved_tracks_contains [uri track_B],
              Returned (VBools [true]));
             (sp_current_user_saved_tracks_contains [uri track_A],
              Returned (VBools [false]));
             (sp_current_user_saved_tracks_add [uri track_A], Returned VUnit)])
    by reflexivity.
  split; [exact Hsplit|].
  exact (proj1 (mutation_follows_its_check three_tracks "add" b_liked _ _ _ _ Hsplit)
           [uri track_C] eq_refl).
Defined.

(** 1001 tracks: 1.2 seconds and the prompt is left unread; 3 tracks and
    an empty answer: 0.6 seconds. *)
Lemma choose_delay_table_witness :
  ((1000 < 1001)%nat /\
   choose_delay 1001 b_liked
   = (Val (Some 1.2%Q), b_liked, [EPrint (SafetyProtection 1001)])) /\
  ((3 <= 1000)%nat /\ stdin b_liked = typed None :: ["y"] /\
   choose_delay 3 b_liked
   = (Val (Some 0.6%Q), {| world := world b_liked; stdin := ["y"] |},
      [EPrint ChooseSpeedMode])).
Proof.
  split.
  - assert (H : (1000 < 1001)%nat) by lia.
    split; [exact H|]. exact (proj1 (proj1 (choose_delay_table 1001 b_liked) H)).
  - assert (H : (3 <= 1000)%nat) by lia.
    split; [exact H|]. split; [reflexivity|].
    exact (proj1 (proj2 (choose_delay_table 3 b_liked) H None ["y"] eq_refl)).
Defined.



(** Limit 0 and a first page of three songs: three songs are found. *)
Lemma limit_zero_exports_first_page_witness :
  stdin export_zero = ["Backup"; "0"; "n"] /\
  result_of (rate_limited_request (call (sp_current_user_saved_tracks 50))
               {| world := world export_zero; stdin := ["n"] |}) = Val (Some page_one) /\
  In (EPrint (FoundLiked 3)) (log_of (create_playlist_from_liked 1 export_zero)).
Proof.
  split; [reflexivity|]. split; [reflexivity|].
  pose proof (proj2 (proj2 (limit_zero_exports_first_page (W := list Scripted))) 0%nat export_zero
                "Backup" ["n"] page_one eq_refl eq_refl) as Hlog.
  cbv zeta in Hlog. rewrite Hlog. vm_compute. tauto.
Defined.

(** The answer abc: both pages are fetched, five songs are found, as with
    the answer all. *)
Lemma invalid_limit_is_unbounded_witness :
  is_ascii "abc" = true /\ py_int "abc" = None /\ "abc" <> ""%string /\
  parse_limit "abc" = None /\
  create_playlist_from_liked 2 export_abc
  = create_playlist_from_liked 2
      {| world := world export_abc; stdin := ["Backup"; "all"; "n"] |} /\
  In (EPrint (FoundLiked 5)) (log_of (create_playlist_from_liked 2 export_abc)).
Proof.
  assert (Hint : py_int "abc" = None) by reflexivity.
  assert (Hline : "abc" <> ""%string) by discriminate.
  pose proof (invalid_limit_is_unbounded (W := list Scripted) "abc" eq_refl Hint)
    as (Hnone & Hsame & _).
  split; [reflexivity|]. split; [exact Hint|]. split; [exact Hline|]. split; [exact Hnone|].
  split; [exact (Hsame Hline 2%nat export_abc "Backup" ["n"] eq_refl)|].
  vm_compute. tauto.
Defined.

(** ** The further properties on concrete runs *)

Lemma extract_playlist_id_round_trip_witness :
  extract_playlist_id ("https://open.spotify.com/" +:+ "playlist/") = None /\
  "37i9dQZF1DXcBWIGoYBM5M" <> ""%string /\
  all_alnum "37i9dQZF1DXcBWIGoYBM5M" = true /\ stops "?si=0a1b" = true /\
  extract_playlist_id
    ("https://open.spotify.com/" +:+ "playlist/" +:+ "37i9dQZF1DXcBWIGoYBM5M" +:+ "?si=0a1b")
  = Some "37i9dQZF1DXcBWIGoYBM5M".
Proof.
  assert (Hpre : extract_playlist_id ("https://open.spotify.com/" +:+ "playlist/") = None)
    by reflexivity.
  assert (Hne : "37i9dQZF1DXcBWIGoYBM5M" <> ""%string) by discriminate.
  split; [exact Hpre|]. split; [exact Hne|]. split; [reflexivity|]. split; [reflexivity|].
  exact (extract_playlist_id_round_trip "https://open.spotify.com/"
           "37i9dQZF1DXcBWIGoYBM5M" "?si=0a1b" Hpre Hne eq_refl eq_refl).
Defined.

Lemma extract_playlist_id_sound_witness :
  extract_playlist_id shared_link = Some "37i9dQZF1DXcBWIGoYBM5M" /\
  ("37i9dQZF1DXcBWIGoYBM5M" <> ""%string /\
   all_alnum "37i9dQZF1DXcBWIGoYBM5M" = true /\
   exists pre post,
     shared_link = pre +:+ "playlist/" +:+ "37i9dQZF1DXcBWIGoYBM5M" +:+ post /\
     stops post = true).
Proof.
  split; [reflexivity|].
  exact (extract_playlist_id_sound shared_link "37i9dQZF1DXcBWIGoYBM5M" eq_refl).
Defined.

Lemma clear_cache_needs_yes_witness :
  clear_cache logged_in ["y"]
  = (Val true, {| cache_path := Absent; env_file := Absent |}, [],
     [AskDelete; CacheCleared; EnvFileDeleted; AllRemoved]) /\
  {| cache_path := Absent; env_file := Absent |} <> logged_in /\
  exists rest, read_confirm ["y"] = Some (true, rest).
Proof.
  assert (Hne : {| cache_path := Absent; env_file := Absent |} <> logged_in)
    by discriminate.
  split; [reflexivity|]. split; [exact Hne|].
  exact (clear_cache_needs_yes logged_in ["y"] _ _ _ _ eq_refl Hne).
Defined.

Lemma clear_cache_confirmed_witness :
  read_confirm ["Y"] = Some (true, []) /\
  {| cache_path := Absent; env_file := Absent |}
  = {| cache_path := Absent; env_file := Absent |} /\
  true = exists_path (cache_path logged_in) || exists_path (env_file logged_in) /\
  (In NothingToDelete [AskDelete; CacheCleared; EnvFileDeleted; AllRemoved]
   <-> true = false).
Proof.
  split; [reflexivity|].
  exact (clear_cache_confirmed logged_in ["Y"] [] true _ _ _ eq_refl eq_refl).
Defined.

Lemma clear_cache_twice_witness :
  read_confirm ["y"; "y"] = Some (true, ["y"]) /\
  read_confirm ["y"] = Some (true, []) /\
  clear_cache {| cache_path := Absent; env_file := Absent |} ["y"]
  = (Val false, {| cache_path := Absent; env_file := Absent |}, [],
     [AskDelete; NothingToDelete]).
Proof.
  split; [reflexivity|]. split; [reflexivity|].
  exact (clear_cache_twice logged_in ["y"; "y"] ["y"] true _ _ _ [] eq_refl eq_refl eq_refl).
Defined.



Lemma get_playlist_info_and_tracks_well_formed_witness :
  result_of (get_playlist_info_and_tracks 1 "p" load_and_stop)
  = Val (playlist_info_of (Some some_playlist), page_tracks page_two) /\
  Forall well_formed (page_tracks page_two).
Proof.
  split; [reflexivity|].
  exact (get_playlist_info_and_tracks_well_formed (W := list Scripted) 1 "p"
           load_and_stop _ _ eq_refl).
Defined.

Lemma process_songs_touches_only_its_tracks_witness :
  valid_mode "add" /\
  In (sp_current_user_saved_tracks_add [uri track_C], Returned VUnit)
     (calls (log_of (process_songs three_tracks "add" b_liked))) /\
  exists t, In t three_tracks /\
    (fst (sp_current_user_saved_tracks_add [uri track_C], Returned VUnit)
       = sp_current_user_saved_tracks_contains [uri t] \/
     ("add" = "add"%string /\
      fst (sp_current_user_saved_tracks_add [uri track_C], Returned VUnit)
        = sp_current_user_saved_tracks_add [uri t]) \/
     ("add" = "remove"%string /\
      fst (sp_current_user_saved_tracks_add [uri track_C], Returned VUnit)
        = sp_current_user_saved_tracks_delete [uri t])).
Proof.
  assert (Hmode : valid_mode "add") by (left; reflexivity).
  assert (Hin : In (sp_current_user_saved_tracks_add [uri track_C], Returned VUnit)
                  (calls (log_of (process_songs three_tracks "add" b_liked))))
    by (vm_compute; tauto).
  split; [exact Hmode|]. split; [exact Hin|].
  exact (process_songs_touches_only_its_tracks (W := list Scripted)
           three_tracks "add" b_liked _ Hmode Hin).
Defined.

Lemma process_songs_call_budget_witness :
  valid_mode "add" /\
  completed (log_of (process_songs three_tracks "add" b_liked)) /\
  (length three_tracks
   <= length (calls (log_of (process_songs three_tracks "add" b_liked)))
   <= 10 * length three_tracks)%nat.
Proof.
  assert (Hmode : valid_mode "add") by (left; reflexivity).
  assert (Hdone : completed (log_of (process_songs three_tracks "add" b_liked)))
    by (vm_compute; tauto).
  split; [exact Hmode|]. split; [exact Hdone|].
  exact (process_songs_call_budget (W := list Scripted) three_tracks "add" b_liked
           Hmode Hdone).
Defined.

(** One track in add mode whose add fails five times: the track is
    counted as processed (see C1), so the bar advances by one and no
    "Error on" line is printed. *)
Lemma process_songs_progress_witness :
  valid_mode "add" /\
  completed (log_of (process_songs [track_A] "add" add_fails)) /\
  (advanced (log_of (process_songs [track_A] "add" add_fails))
   + failed (log_of (process_songs [track_A] "add" add_fails)) = length [track_A])%nat.
Proof.
  assert (Hmode : valid_mode "add") by (left; reflexivity).
  assert (Hdone : completed (log_of (process_songs [track_A] "add" add_fails)))
    by (vm_compute; tauto).
  split; [exact Hmode|]. split; [exact Hdone|].
  exact (process_songs_progress (W := list Scripted) [track_A] "add" add_fails
           Hmode Hdone).
Defined.

(** The confirmation answered no: "Cancelled." and no call. *)
Lemma process_songs_cancelled_is_idle_witness :
  In (EPrint Cancelled) (log_of (process_songs three_tracks "remove" declined)) /\
  calls (log_of (process_songs three_tracks "remove" declined)) = [].
Proof.
  assert (Hin : In (EPrint Cancelled)
                  (log_of (process_songs three_tracks "remove" declined)))
    by (vm_compute; tauto).
  split; [exact Hin|].
  exact (proj2 (process_songs_cancelled_is_idle (W := list Scripted) three_tracks
                  "remove" declined) (or_intror (or_intror Hin))).
Defined.

(** The limit -2 on a first page of three songs: one song is left. *)
Lemma negative_limit_drops_last_songs_witness :
  -2 < 0 /\
  fetch_liked 1 (Some (-2)) (scripted [Gives (VPage page_one)] [])
  = (Val ["spotify:track:A"], scripted [] [],
     [ECall (sp_current_user_saved_tracks (-2)) (Returned (VPage page_one));
      ESleep MIN_DELAY_BASE 0.15%Q]).
Proof.
  assert (Hn : -2 < 0) by lia.
  split; [exact Hn|].
  exact (negative_limit_drops_last_songs (W := list Scripted) (-2) 0
           (scripted [Gives (VPage page_one)] []) Hn).
Defined.

Lemma uploads_go_to_the_created_playlist_witness :
  In (sp_playlist_add_items "new" ["spotify:track:A"; "spotify:track:B"], Returned VUnit)
     (calls (log_of (create_playlist_from_liked 1 export_two))) /\
  exists user name public description p,
    In (sp_user_playlist_create user name public description, Returned (VPlaylist p))
       (calls (log_of (create_playlist_from_liked 1 export_two))) /\
    playlist_id p = "new"%string.
Proof.
  assert (Hin : In (sp_playlist_add_items "new" ["spotify:track:A"; "spotify:track:B"],
                    Returned VUnit)
                  (calls (log_of (create_playlist_from_liked 1 export_two))))
    by (vm_compute; tauto).
  split; [exact Hin|].
  exact (uploads_go_to_the_created_playlist (W := list Scripted) 1 export_two _ _ _ Hin).
Defined.

Lemma cancelled_export_only_reads_witness :
  In (EPrint Cancelled) (log_of (create_playlist_from_liked 1 export_zero)) /\
  Forall (fun c => reads_liked (fst c) = true)
    (calls (log_of (create_playlist_from_liked 1 export_zero))).
Proof.
  assert (Hin : In (EPrint Cancelled) (log_of (create_playlist_from_liked 1 export_zero)))
    by (vm_compute; tauto).
  split; [exact Hin|].
  exact (cancelled_export_only_reads (W := list Scripted) 1 export_zero Hin).
Defined.

(** No song was added, the bar is full and "Success!" is printed. *)
Lemma export_progress_is_complete_witness :
  In (EPrint (Success "Backup")) (log_of (create_playlist_from_liked 1 export_rate_limited)) /\
  result_of (rate_limited_request
               (call (sp_playlist_add_items "new" ["spotify:track:D"; "spotify:track:E"]))
               (scripted (replicate 5 (Raises (SpotifyException 429 (Some 1)))) []))
  = Val None /\
  exists n,
    In (EPrint (FoundLiked n)) (log_of (create_playlist_from_liked 1 export_rate_limited)) /\
    advanced (log_of (create_playlist_from_liked 1 export_rate_limited)) = n.
Proof.
  assert (Hin : In (EPrint (Success "Backup"))
                  (log_of (create_playlist_from_liked 1 export_rate_limited)))
    by (vm_compute; tauto).
  split; [exact Hin|]. split; [reflexivity|].
  exact (export_progress_is_complete (W := list Scripted) 1 export_rate_limited "Backup" Hin).
Defined.

Lemma main_playlist_touches_only_loaded_tracks_witness :
  In (sp_current_user_saved_tracks_add ["spotify:track:E"], Returned VUnit)
     (calls (log_of (main_playlist 1 "1" "p" load_and_add))) /\
  (loads (fst (sp_current_user_saved_tracks_add ["spotify:track:E"], Returned VUnit)) = true \/
   exists page u,
     In page (pages_returned (log_of (main_playlist 1 "1" "p" load_and_add))) /\
     In u (page_uris page) /\
     (fst (sp_current_user_saved_tracks_add ["spotify:track:E"], Returned VUnit)
        = sp_current_user_saved_tracks_contains [u] \/
      ("1" = "1"%string /\
       fst (sp_current_user_saved_tracks_add ["spotify:track:E"], Returned VUnit)
         = sp_current_user_saved_tracks_add [u]) \/
      ("1" <> "1"%string /\
       fst (sp_current_user_saved_tracks_add ["spotify:track:E"], Returned VUnit)
         = sp_current_user_saved_tracks_delete [u]))).
Proof.
  assert (Hin : In (sp_current_user_saved_tracks_add ["spotify:track:E"], Returned VUnit)
                  (calls (log_of (main_playlist 1 "1" "p" load_and_add))))
    by (vm_compute; tauto).
  split; [exact Hin|].
  exact (main_playlist_touches_only_loaded_tracks (W := list Scripted) 1 "1" "p"
           load_and_add _ Hin).
Defined.

Lemma main_link_loads_the_linked_playlist_witness :
  stdin (scripted [Gives (VPlaylistData some_playlist); Gives (VPage page_two)]
           [shared_link]) = [shared_link] /\
  is_ascii shared_link = true /\
  extract_playlist_id (strip shared_link) = Some "37i9dQZF1DXcBWIGoYBM5M" /\
  In (Shell (PlaylistId "37i9dQZF1DXcBWIGoYBM5M"))
     (snd (main_link 1 "1"
             (scripted [Gives (VPlaylistData some_playlist); Gives (VPage page_two)]
                [shared_link]))) /\
  exists out more,
    calls (core (snd (main_link 1 "1"
                        (scripted [Gives (VPlaylistData some_playlist);
                                   Gives (VPage page_two)] [shared_link]))))
    = (sp_playlist "37i9dQZF1DXcBWIGoYBM5M", out) :: more.
Proof.
  split; [reflexivity|]. split; [reflexivity|]. split; [reflexivity|].
  exact (main_link_loads_the_linked_playlist (W := list Scripted) 1 "1"
           (scripted [Gives (VPlaylistData some_playlist); Gives (VPage page_two)]
              [shared_link])
           shared_link [] "37i9dQZF1DXcBWIGoYBM5M" eq_refl eq_refl eq_refl).
Defined.
